(** * Role synchronisation of the RBAC security manager

    A shallow embedding of [airflow/www_rbac/security.py]
    ([AirflowSecurityManager]) and the properties of its reconciliation
    passes and access queries.

    The relational store behind the security manager is modelled as a
    record of tables.  Permission and view-menu rows are identified by
    their (unique) name; permission-view rows and role rows are keyed by
    their integer primary key; the join table between roles and
    permission-views is a set of (permission_view_id, role_id) pairs,
    together with the number of its rows that are NULL in both columns:
    the table has a key of its own, so there can be several, and no query
    of the security manager selects them.
    A permission-view row holds the two relationship attributes
    [permission] and [view_menu] the Python code reads: [None] is a null
    reference.  The store does not cascade deletions: deleting a
    permission-view row leaves the join rows that mention its id. *)

From stdpp Require Import gmap strings list fin_maps.

Open Scope string_scope.
Open Scope nat_scope.

#[global] Set Warnings "-clear-no-such-hyp".

(** ** Role catalog *)

Module Catalog.

Definition VIEWER_VMS : gset string :=
  {[ "Airflow"; "DagModelView"; "Browse"; "DAG Runs"; "DagRunModelView";
     "Task Instances"; "TaskInstanceModelView"; "SLA Misses";
     "SlaMissModelView"; "Jobs"; "JobModelView"; "Logs"; "LogModelView";
     "Docs"; "Documentation"; "Github"; "About"; "Version"; "VersionView" ]}.

Definition USER_VMS : gset string := VIEWER_VMS.

Definition OP_VMS : gset string :=
  {[ "Admin"; "Configurations"; "ConfigurationView"; "Connections";
     "ConnectionModelView"; "Pools"; "PoolModelView"; "Variables";
     "VariableModelView"; "XComs"; "XComModelView" ]}.

Definition VIEWER_PERMS : gset string :=
  {[ "menu_access"; "can_index"; "can_list"; "can_show"; "can_chart";
     "can_dag_stats"; "can_dag_details"; "can_task_stats"; "can_code";
     "can_log"; "can_get_logs_with_metadata"; "can_tries"; "can_graph";
     "can_tree"; "can_task"; "can_task_instances"; "can_xcom"; "can_gantt";
     "can_landing_times"; "can_duration"; "can_blocked"; "can_rendered";
     "can_pickle_info"; "can_version" ]}.

Definition USER_PERMS : gset string :=
  {[ "can_dagrun_clear"; "can_run"; "can_trigger"; "can_add"; "can_edit";
     "can_delete"; "can_paused"; "can_refresh"; "can_success"; "muldelete";
     "set_failed"; "set_running"; "set_success"; "clear"; "can_clear" ]}.

Definition OP_PERMS : gset string := {[ "can_conf"; "can_varimport" ]}.

(** global view-menu for dag-level access *)
Definition DAG_VMS : gset string := {[ "all_dags" ]}.

Definition DAG_PERMS : gset string := {[ "can_dag_read"; "can_dag_edit" ]}.

Record RoleConfig := {
  role : string;
  perms : gset string;
  vms : gset string;
}.

Definition ROLE_CONFIGS : list RoleConfig :=
  [ {| role := "Viewer";
       perms := VIEWER_PERMS;
       vms := VIEWER_VMS ∪ DAG_VMS |};
    {| role := "User";
       perms := VIEWER_PERMS ∪ USER_PERMS ∪ DAG_PERMS;
       vms := VIEWER_VMS ∪ DAG_VMS ∪ USER_VMS |};
    {| role := "Op";
       perms := VIEWER_PERMS ∪ USER_PERMS ∪ OP_PERMS ∪ DAG_PERMS;
       vms := VIEWER_VMS ∪ DAG_VMS ∪ USER_VMS ∪ OP_VMS |} ].

Definition EXISTING_ROLES : gset string :=
  {[ "Admin"; "Viewer"; "User"; "Op"; "Public" ]}.

End Catalog.

Export Catalog.

(** ** The store *)

(** A row of [ab_permission_view]: the relationship attributes
    [pv.permission] and [pv.view_menu], each the name of the row it refers
    to, or [None] for a null reference. *)
Record PermissionView := {
  permission : option string;
  view_menu : option string;
}.

(** A role object as the ORM hands it out: primary key and name. *)
Record Role := {
  id : nat;
  name : string;
}.

Record DagModel := {
  dag_id : string;
  is_active : bool;
  is_paused : bool;
  is_subdag : bool;
}.

Record Store := {
  ab_permission : gset string;
  ab_view_menu : gset string;
  ab_permission_view : gmap nat PermissionView;
  ab_role : gmap nat string;
  (** rows (permission_view_id, role_id) *)
  ab_permission_view_role : gset (nat * nat);
  (** how many rows of [ab_permission_view_role] are NULL in both columns *)
  ab_permission_view_role_null : nat;
  dag : list DagModel;
}.

#[global] Instance PermissionView_eq_dec : EqDecision PermissionView.
Proof. solve_decision. Defined.
#[global] Instance Role_eq_dec : EqDecision Role.
Proof. solve_decision. Defined.
#[global] Instance DagModel_eq_dec : EqDecision DagModel.
Proof. solve_decision. Defined.
#[global] Instance Store_eq_dec : EqDecision Store.
Proof. solve_decision. Defined.

Definition set_ab_permission (f : gset string → gset string) (s : Store) : Store :=
  {| ab_permission := f (ab_permission s);
     ab_view_menu := ab_view_menu s;
     ab_permission_view := ab_permission_view s;
     ab_role := ab_role s;
     ab_permission_view_role := ab_permission_view_role s;
     ab_permission_view_role_null := ab_permission_view_role_null s;
     dag := dag s |}.

Definition set_ab_view_menu (f : gset string → gset string) (s : Store) : Store :=
  {| ab_permission := ab_permission s;
     ab_view_menu := f (ab_view_menu s);
     ab_permission_view := ab_permission_view s;
     ab_role := ab_role s;
     ab_permission_view_role := ab_permission_view_role s;
     ab_permission_view_role_null := ab_permission_view_role_null s;
     dag := dag s |}.

Definition set_ab_permission_view
    (f : gmap nat PermissionView → gmap nat PermissionView) (s : Store) : Store :=
  {| ab_permission := ab_permission s;
     ab_view_menu := ab_view_menu s;
     ab_permission_view := f (ab_permission_view s);
     ab_role := ab_role s;
     ab_permission_view_role := ab_permission_view_role s;
     ab_permission_view_role_null := ab_permission_view_role_null s;
     dag := dag s |}.

Definition set_ab_role (f : gmap nat string → gmap nat string) (s : Store) : Store :=
  {| ab_permission := ab_permission s;
     ab_view_menu := ab_view_menu s;
     ab_permission_view := ab_permission_view s;
     ab_role := f (ab_role s);
     ab_permission_view_role := ab_permission_view_role s;
     ab_permission_view_role_null := ab_permission_view_role_null s;
     dag := dag s |}.

Definition set_ab_permission_view_role
    (f : gset (nat * nat) → gset (nat * nat)) (s : Store) : Store :=
  {| ab_permission := ab_permission s;
     ab_view_menu := ab_view_menu s;
     ab_permission_view := ab_permission_view s;
     ab_role := ab_role s;
     ab_permission_view_role := f (ab_permission_view_role s);
     ab_permission_view_role_null := ab_permission_view_role_null s;
     dag := dag s |}.

Definition set_ab_permission_view_role_null (f : nat → nat) (s : Store) : Store :=
  {| ab_permission := ab_permission s;
     ab_view_menu := ab_view_menu s;
     ab_permission_view := ab_permission_view s;
     ab_role := ab_role s;
     ab_permission_view_role := ab_permission_view_role s;
     ab_permission_view_role_null := f (ab_permission_view_role_null s);
     dag := dag s |}.

(** *** Queries over a keyed table *)

(** The key an insert receives: one more than the largest key in use. *)
Definition next_id {V} (m : gmap nat V) : nat :=
  S (set_fold Nat.max 0 (dom m)).

(** The row under key [i], if there is one and it matches. *)
Definition probe {V} (P : V → Prop) `{!∀ v, Decision (P v)}
    (m : gmap nat V) (i : nat) : option (nat * V) :=
  v ← m !! i; if decide (P v) then Some (i, v) else None.

(** [query(...).filter(P).first()]: the matching row with the least key. *)
Definition query_first {V} (P : V → Prop) `{!∀ v, Decision (P v)}
    (m : gmap nat V) : option (nat * V) :=
  head (omap (probe P m) (seq 0 (next_id m))).

(** The rows of a table matching a predicate on the row. *)
Definition rows_where {V} (P : V → Prop) `{!∀ v, Decision (P v)}
    (m : gmap nat V) : gmap nat V :=
  filter (λ kv, P kv.2) m.

(** *** The security manager's store primitives

    These embed the operations of the base [SecurityManager] that
    [AirflowSecurityManager] calls: lookups by name, find-or-create
    inserts, and the [permissions] relationship of a role. *)

Definition find_role (s : Store) (role_name : string) : option Role :=
  (λ r, {| id := r.1; name := r.2 |}) <$>
    query_first (λ n, n = role_name) (ab_role s).

Definition add_role (role_name : string) (s : Store) : Role * Store :=
  match find_role s role_name with
  | Some r => (r, s)
  | None =>
      let i := next_id (ab_role s) in
      ({| id := i; name := role_name |}, set_ab_role (insert i role_name) s)
  end.

Definition get_all_roles (s : Store) : list Role :=
  (λ r, {| id := r.1; name := r.2 |}) <$> map_to_list (ab_role s).

Definition find_permission (s : Store) (permission_name : string) : option string :=
  if decide (permission_name ∈ ab_permission s) then Some permission_name else None.

Definition find_view_menu (s : Store) (view_menu_name : string) : option string :=
  if decide (view_menu_name ∈ ab_view_menu s) then Some view_menu_name else None.

Definition add_permission (permission_name : string) (s : Store) : Store :=
  set_ab_permission (λ t, {[ permission_name ]} ∪ t) s.

Definition add_view_menu (view_menu_name : string) (s : Store) : Store :=
  set_ab_view_menu (λ t, {[ view_menu_name ]} ∪ t) s.

(** The row predicate of [filter_by(permission=p, view_menu=v)]. *)
Definition pv_is (p v : string) (pv : PermissionView) : Prop :=
  permission pv = Some p ∧ view_menu pv = Some v.

#[global] Instance pv_is_dec p v pv : Decision (pv_is p v pv).
Proof. unfold pv_is. apply _. Defined.

(** The row predicate of [filter_by(permission=permission,
    view_menu=view_menu)] for two objects that may be [None]: a row matches
    [None] with a null reference. *)
Definition pv_refs (p v : option string) (pv : PermissionView) : Prop :=
  permission pv = p ∧ view_menu pv = v.

#[global] Instance pv_refs_dec p v pv : Decision (pv_refs p v pv).
Proof. unfold pv_refs. apply _. Defined.

(** The lookup of the base class: it filters by whatever the two lookups by
    name returned, found or not. *)
Definition find_permission_view_menu (s : Store)
    (permission_name view_menu_name : string) : option (nat * PermissionView) :=
  let p := find_permission s permission_name in
  let v := find_view_menu s view_menu_name in
  query_first (pv_refs p v) (ab_permission_view s).

(** Find-or-create of the view menu and of the permission, then insert of
    the pairing row; the table's unique constraint on the pair keeps an
    existing row as it is. *)
Definition add_permission_view_menu (permission_name view_menu_name : string)
    (s : Store) : Store :=
  let s := add_view_menu view_menu_name s in
  let s := add_permission permission_name s in
  match query_first (pv_is permission_name view_menu_name) (ab_permission_view s) with
  | Some _ => s
  | None =>
      set_ab_permission_view
        (insert (next_id (ab_permission_view s))
                {| permission := Some permission_name;
                   view_menu := Some view_menu_name |}) s
  end.

(** [role.permissions]: the permission-view rows the join table attaches
    to the role. *)
Definition permissions (s : Store) (r : Role) : gmap nat PermissionView :=
  filter (λ kv, (kv.1, id r) ∈ ab_permission_view_role s) (ab_permission_view s).

(** The join rows of a role for a collection of permission-views. *)
Definition assoc_rows (r : Role) (pvs : gmap nat PermissionView) : gset (nat * nat) :=
  set_map (λ i, (i, id r)) (dom pvs).

(** [role.permissions = pvs] followed by the commit: the unit of work
    drops the join rows of the collection it had loaded and writes those of
    the new one. *)
Definition set_permissions (r : Role) (pvs : gmap nat PermissionView)
    (s : Store) : Store :=
  set_ab_permission_view_role
    (λ t, (t ∖ assoc_rows r (permissions s r)) ∪ assoc_rows r pvs) s.

(** [p.permission and p.view_menu] *)
Definition valid (pv : PermissionView) : Prop :=
  is_Some (permission pv) ∧ is_Some (view_menu pv).

#[global] Instance valid_dec pv : Decision (valid pv).
Proof. unfold valid. apply _. Defined.

(** ** Outcomes of the operations that can raise *)

Inductive exn := AttributeError.

(** Either the operation returned, or it raised; in both cases the store
    is the one the commits made so far have left. *)
Inductive result :=
  | Done (s : Store)
  | Raised (e : exn) (s : Store).

Definition store_of (r : result) : Store :=
  match r with Done s => s | Raised _ s => s end.

Definition bind (r : result) (k : Store → result) : result :=
  match r with Done s => k s | Raised e s => Raised e s end.

Notation "'let!' s ':=' r 'in' k" := (bind r (λ s, k))
  (at level 10, s name, r at level 100, k at level 200).

#[global] Instance exn_eq_dec : EqDecision exn.
Proof. solve_decision. Defined.
#[global] Instance result_eq_dec : EqDecision result.
Proof. solve_decision. Defined.

Inductive LogRecord :=
  | CleaningFaultyPerms
  | DeletedFaultyPermissions (deleted_count : nat).

(** ** AirflowSecurityManager: the reconciliation passes *)

(** The test of the loop body of [init_role]. *)
Definition in_role_config (role_vms role_perms : gset string)
    (pvm : PermissionView) : Prop :=
  match view_menu pvm, permission pvm with
  | Some v, Some p => v ∈ role_vms ∧ p ∈ role_perms
  | _, _ => False
  end.

#[global] Instance in_role_config_dec role_vms role_perms pvm :
  Decision (in_role_config role_vms role_perms pvm).
Proof. unfold in_role_config. destruct (view_menu pvm), (permission pvm); apply _. Defined.

(** [role = self.find_role(role_name)], and [self.add_role(role_name)] when
    there is none: the role, and the store with it. *)
Definition find_or_add_role (role_name : string) (s : Store) : Role * Store :=
  match find_role s role_name with
  | Some r => (r, s)
  | None => add_role role_name s
  end.

Definition init_role (role_name : string) (role_vms role_perms : gset string)
    (s : Store) : Store :=
  let pvms := rows_where valid (ab_permission_view s) in
  let '(r, s) := find_or_add_role role_name s in
  if decide (size (permissions s r) = 0) then
    let role_pvms := rows_where (in_role_config role_vms role_perms) pvms in
    set_permissions r role_pvms s
  else s.

(** [or_(PermissionView.permission == None, PermissionView.view_menu == None)] *)
Definition faulty (pv : PermissionView) : Prop :=
  permission pv = None ∨ view_menu pv = None.

#[global] Instance faulty_dec pv : Decision (faulty pv).
Proof. unfold faulty. apply _. Defined.

Definition clean_perms (s : Store) : Store * list LogRecord :=
  let pvms := rows_where faulty (ab_permission_view s) in
  let deleted_count := size pvms in
  (set_ab_permission_view (λ t, t ∖ pvms) s,
   CleaningFaultyPerms ::
     if decide (deleted_count = 0) then []
     else [DeletedFaultyPermissions deleted_count]).

Definition _merge_perm (permission_name view_menu_name : string) (s : Store) : Store :=
  let permission := find_permission s permission_name in
  let view_menu := find_view_menu s view_menu_name in
  let pv := match permission, view_menu with
            | Some p, Some v => query_first (pv_is p v) (ab_permission_view s)
            | _, _ => None
            end in
  if decide (pv = None ∧ permission_name ≠ "" ∧ view_menu_name ≠ "")
  then add_permission_view_menu permission_name view_menu_name s
  else s.

(** [(pv.permission.name, pv.view_menu.name)], when both are there. *)
Definition pv_pair (pv : PermissionView) : option (string * string) :=
  p ← permission pv; v ← view_menu pv; Some (p, v).

(** The (permission name, view-menu name) pairs of the valid rows. *)
Definition pv_names (pvs : gmap nat PermissionView) : gset (string * string) :=
  list_to_set (omap (λ kv, pv_pair kv.2) (map_to_list pvs)).

(** The inner function of [create_custom_dag_permission_view]; note the
    order of the pair it looks up in [all_pvs]. *)
Definition merge_pv (all_pvs : gset (string * string)) (perm view_menu : string)
    (s : Store) : Store :=
  if decide (view_menu ≠ "" ∧ perm ≠ "" ∧ (view_menu, perm) ∉ all_pvs)
  then _merge_perm perm view_menu s
  else s.

Definition merge_dag_perms (all_pvs : gset (string * string)) (s : Store)
    (view_menu : string) : Store :=
  foldl (λ s perm, merge_pv all_pvs perm view_menu s) s (elements DAG_PERMS).

(** [.filter(or_(is_active, is_paused)).filter(~is_subdag)] *)
Definition all_dags_models (s : Store) : list DagModel :=
  filter (λ d, (is_active d || is_paused d) && negb (is_subdag d) = true) (dag s).

(** Steps 1 to 3 of the workflow: the permission-views of the global dag
    and of every listed dag. *)
Definition create_dag_perm_views (s : Store) : Store :=
  let all_pvs := pv_names (ab_permission_view s) in
  let s := foldl (merge_dag_perms all_pvs) s (elements DAG_VMS) in
  foldl (λ s d, merge_dag_perms all_pvs s (dag_id d)) s (all_dags_models s).

(** [.join(view_menu).filter(perm_view.view_menu_id != dag_vm.id)]: the row
    has a view menu, and it is not [dag_vm]. *)
Definition on_other_view_menu (dag_vm : string) (pv : PermissionView) : Prop :=
  match view_menu pv with
  | Some v => v ≠ dag_vm
  | None => False
  end.

#[global] Instance on_other_view_menu_dec dag_vm pv :
  Decision (on_other_view_menu dag_vm pv).
Proof. unfold on_other_view_menu. destruct (view_menu pv); apply _. Defined.

(** The ids selected by [all_perm_view_by_user]: the join rows of the
    role, joined with their permission-view and its view menu. *)
Definition all_perm_views (s : Store) (user_role : Role) (dag_vm : string) : gset nat :=
  dom (rows_where (on_other_view_menu dag_vm) (permissions s user_role)).

(** The ids of the join rows of a role. *)
Definition existing_perms_views (s : Store) (r : Role) : gset nat :=
  set_map fst (filter (λ a, a.2 = id r) (ab_permission_view_role s)).

Definition dag_role (s : Store) : list Role :=
  filter (λ r, name r ∉ EXISTING_ROLES) (get_all_roles s).

Definition update_perm_views (s : Store) (user_role : Role) (dag_vm : string)
    : gset (nat * nat) :=
  ⋃ ((λ r, set_map (λ perm_view_id, (perm_view_id, id r))
             (all_perm_views s user_role dag_vm ∖ existing_perms_views s r))
       <$> dag_role s).

(** [session.execute(ab_perm_view_role.insert(), update_perm_views)]: a row
    for every entry of the list.  The call is made whatever the list holds:
    executed with an empty list the statement has no values to bind, and
    inserts one row that is NULL in both columns. *)
Definition execute_insert (update_perm_views : gset (nat * nat)) (s : Store) : Store :=
  set_ab_permission_view_role_null
    (λ n, if decide (update_perm_views = ∅) then S n else n)
    (set_ab_permission_view_role (λ t, t ∪ update_perm_views) s).

(** Steps 4 to 7 of the workflow. *)
Definition grant_user_perms_to_dag_roles (s : Store) : result :=
  match find_role s "User", find_view_menu s "all_dags" with
  | Some user_role, Some dag_vm =>
      Done (execute_insert (update_perm_views s user_role dag_vm) s)
  | _, _ => Raised AttributeError s
  end.

Definition create_custom_dag_permission_view (s : Store) : result :=
  grant_user_perms_to_dag_roles (create_dag_perm_views s).

Definition update_admin_perm_view (s : Store) : result :=
  let pvms := rows_where valid (ab_permission_view s) in
  match find_role s "Admin" with
  | Some admin => Done (set_permissions admin (permissions s admin ∪ pvms) s)
  | None => Raised AttributeError s
  end.

Definition create_perm_vm_for_all_dag (s : Store) : Store :=
  foldl (λ s dag_vm,
           foldl (λ s perm, _merge_perm perm dag_vm s) s (elements DAG_PERMS))
        s (elements DAG_VMS).

(** The loop of [sync_roles] over [ROLE_CONFIGS]. *)
Definition init_roles (s : Store) : Store :=
  foldl (λ s config, init_role (role config) (vms config) (perms config) s)
        s ROLE_CONFIGS.

Definition sync_roles (s : Store) : result :=
  let s := create_perm_vm_for_all_dag s in
  let s := init_roles s in
  let! s := create_custom_dag_permission_view s in
  let! s := update_admin_perm_view s in
  Done (clean_perms s).1.

(** The body of the loop of [sync_perm_for_dag]. *)
Definition sync_perm (dag_id : string) (s : Store) (dag_perm : string) : Store :=
  match find_permission_view_menu s dag_perm dag_id with
  | None => add_permission_view_menu dag_perm dag_id s
  | Some _ => s
  end.

Definition sync_perm_for_dag (dag_id : string) (s : Store) : Store :=
  foldl (sync_perm dag_id) s (elements DAG_PERMS).

(** ** AirflowSecurityManager: the access queries *)

Record User := {
  is_anonymous : bool;
  roles : list Role;
}.

(** What the queries read besides the store: flask's [g.user]. *)
Record Context := {
  g_user : User;
}.

(** A value returned, or an exception raised. *)
Definition raises (A : Type) : Type := exn + A.

Definition try {A B} (x : raises A) (k : A → raises B) : raises B :=
  match x with inl e => inl e | inr a => k a end.

(** Python objects as [==] and [in] compare them: a [str] is never equal to
    a role row. *)
Inductive object :=
  | Str (s : string)
  | RoleObject (r : Role).

#[global] Instance object_eq_dec : EqDecision object.
Proof. solve_decision. Defined.

(** [appbuilder] is the name this module imports from
    [airflow.www_rbac.app] when it is loaded.  It is [None] then: the
    application object is made later, and the import has bound the value,
    not the variable.  So for an anonymous user the attribute access
    [appbuilder.config] raises, before the public role is looked up. *)
Definition get_user_roles (c : Context) (user : option User)
    : raises (list Role) :=
  let user := default (g_user c) user in
  if is_anonymous user then inl AttributeError else inr (roles user).

(** [{(perm_view.permission.name, perm_view.view_menu.name)
      for perm_view in role.permissions}] *)
Definition role_perms_views (s : Store) (r : Role)
    : raises (gset (string * string)) :=
  match mapM (λ kv, pv_pair kv.2) (map_to_list (permissions s r)) with
  | Some l => inr (list_to_set l)
  | None => inl AttributeError
  end.

(** The body of the loop of [get_all_permissions_views]:
    [perms_views.update(...)] for one role. *)
Definition update_perms_views (s : Store)
    (perms_views : raises (gset (string * string))) (r : Role)
    : raises (gset (string * string)) :=
  try perms_views (λ acc,
  try (role_perms_views s r) (λ new, inr (acc ∪ new))).

Definition get_all_permissions_views (c : Context) (s : Store)
    : raises (gset (string * string)) :=
  try (get_user_roles c None) (foldl (update_perms_views s) (inr ∅)).

Definition get_accessible_dag_ids (c : Context) (s : Store)
    (username : option User) : raises (gset string) :=
  let username := default (g_user c) username in
  if is_anonymous username
     || bool_decide (Str "Public" ∈ (RoleObject <$> roles username)) then
    inr ∅
  else
    let role_names : gset string := list_to_set (name <$> roles username) in
    if decide ({[ "Admin"; "Viewer"; "User"; "Op" ]} ∩ role_names ≠ ∅) then
      inr DAG_VMS
    else
      try (get_all_permissions_views c s) (λ user_perms_views,
        inr (set_map snd
               (filter (λ pv : string * string, pv.1 ∈ DAG_PERMS)
                       user_perms_views))).

(** [self.perms]: absent until [_get_and_cache_perms] has run. *)
Definition cache : Type := option (gset (string * string)).

Definition _get_and_cache_perms (c : Context) (s : Store) (self_perms : cache)
    : raises unit * cache :=
  match get_all_permissions_views c s with
  | inl e => (inl e, self_perms)
  | inr pvs => (inr (), Some pvs)
  end.

Definition _has_role (c : Context) (s : Store) (role_name_or_list : list string)
    : raises bool :=
  try (get_user_roles c None) (λ user_roles,
    inr (existsb (λ b, b)
           ((λ r, bool_decide (name r ∈ role_name_or_list)) <$> user_roles))).

Definition cached (self_perms : cache) (permission_name view_menu_name : string)
    : bool :=
  match self_perms with
  | Some perms => bool_decide ((permission_name, view_menu_name) ∈ perms)
  | None => false
  end.

Definition _has_perm (c : Context) (s : Store) (self_perms : cache)
    (permission_name view_menu_name : string) : raises bool * cache :=
  if cached self_perms permission_name view_menu_name then (inr true, self_perms)
  else
    (* rebuild the permissions set *)
    match _get_and_cache_perms c s self_perms with
    | (inl e, self_perms) => (inl e, self_perms)
    | (inr _, self_perms) =>
        (inr (cached self_perms permission_name view_menu_name), self_perms)
    end.

Definition has_all_dags_access (c : Context) (s : Store) (self_perms : cache)
    : raises bool * cache :=
  match _has_role c s ["Admin"; "Viewer"; "Op"; "User"] with
  | inl e => (inl e, self_perms)
  | inr true => (inr true, self_perms)
  | inr false =>
      match _has_perm c s self_perms "can_dag_read" "all_dags" with
      | (inr false, self_perms) => _has_perm c s self_perms "can_dag_edit" "all_dags"
      | r => r
      end
  end.

(** ** Notions the properties are stated with *)

(** A valid grant for the pair exists in the store: the permission row, the
    view-menu row and a row of [ab_permission_view] pairing them. *)
Definition has_valid_grant (s : Store) (p v : string) : Prop :=
  p ∈ ab_permission s ∧ v ∈ ab_view_menu s ∧
  ∃ i pv, ab_permission_view s !! i = Some pv ∧ pv_is p v pv.

(** The rows of [ab_permission_view] for a pair. *)
Definition grant_rows (s : Store) (p v : string) : gmap nat PermissionView :=
  rows_where (pv_is p v) (ab_permission_view s).

(** [grows Q s s']: [s'] is [s] with more permission and view-menu rows and
    more permission-view rows, each new one satisfying [Q] and none of them
    for a pair that had a row; the roles, the join table and the dags are
    those of [s]. *)
Definition grows (Q : PermissionView → Prop) (s s' : Store) : Prop :=
  ab_permission s ⊆ ab_permission s' ∧
  ab_view_menu s ⊆ ab_view_menu s' ∧
  ab_permission_view s ⊆ ab_permission_view s' ∧
  (∀ i pv, ab_permission_view s' !! i = Some pv →
           ab_permission_view s !! i = None → Q pv) ∧
  (∀ p v, grant_rows s p v ≠ ∅ → grant_rows s' p v = grant_rows s p v) ∧
  ab_role s' = ab_role s ∧
  ab_permission_view_role s' = ab_permission_view_role s ∧
  dag s' = dag s ∧
  ab_permission_view_role_null s' = ab_permission_view_role_null s.

(** A row for one of the two dag permissions on one of the given view menus. *)
Definition dag_perm_view (view_menus : gset string) (pv : PermissionView) : Prop :=
  ∃ p v, pv_is p v pv ∧ p ∈ DAG_PERMS ∧ v ∈ view_menus.

(** No grant of the role lacks a reference. *)
Definition all_valid (s : Store) (r : Role) : Prop :=
  ∀ i pv, permissions s r !! i = Some pv → valid pv.

(** The (permission name, view-menu name) pairs of the grants of a user's
    roles. *)
Definition effective_grants (s : Store) (user : User) : gset (string * string) :=
  ⋃ ((λ r, pv_names (permissions s r)) <$> roles user).

(** The view menus [create_custom_dag_permission_view] provisions. *)
Definition dag_view_menus (s : Store) : gset string :=
  DAG_VMS ∪ list_to_set (dag_id <$> all_dags_models s).

(** [provisions Q s s']: as [grows Q s s'], but for the permission,
    view-menu and permission-view tables only. *)
Definition provisions (Q : PermissionView → Prop) (s s' : Store) : Prop :=
  ab_permission s ⊆ ab_permission s' ∧
  ab_view_menu s ⊆ ab_view_menu s' ∧
  ab_permission_view s ⊆ ab_permission_view s' ∧
  (∀ i pv, ab_permission_view s' !! i = Some pv →
           ab_permission_view s !! i = None → Q pv) ∧
  (∀ p v, grant_rows s p v ≠ ∅ → grant_rows s' p v = grant_rows s p v) ∧
  dag s' = dag s.

(** The store [sync_roles] has reached when the grants of the role User are
    about to be handed to the dag roles. *)
Definition before_grant (s : Store) : Store :=
  create_dag_perm_views (init_roles (create_perm_vm_for_all_dag s)).

(** No join row refers to a permission-view that lacks a reference. *)
Definition no_faulty_grant (s : Store) : Prop :=
  ∀ i j pv, (i, j) ∈ ab_permission_view_role s →
            ab_permission_view s !! i = Some pv → valid pv.

(** The rows [init_role] would assign for a configuration. *)
Definition role_pvms (c : RoleConfig) (s : Store) : gmap nat PermissionView :=
  rows_where (in_role_config (vms c) (perms c))
             (rows_where valid (ab_permission_view s)).



(** ** Concrete stores and settings *)

(** A concrete setting in which the cache is stale: the current user has no
    role and therefore no grant, while the cache still lists one. *)
Definition stale_context : Context :=
  {| g_user := {| is_anonymous := false; roles := [] |} |}.

Definition empty_store : Store :=
  {| ab_permission := ∅; ab_view_menu := ∅; ab_permission_view := ∅;
     ab_role := ∅; ab_permission_view_role := ∅;
     ab_permission_view_role_null := 0; dag := [] |}.

Definition stale_cache : cache := Some {[ ("can_dag_read", "all_dags") ]}.

(** The store after the dag roles were handed the grants of [user_role]. *)
Definition granted (s : Store) (user_role : Role) : Store :=
  execute_insert (update_perm_views s user_role "all_dags") s.

(** The store with one more row of NULLs in the join table. *)
Definition null_row (s : Store) : Store :=
  set_ab_permission_view_role_null S s.


(** The store after Admin was given every valid permission-view. *)
Definition repaired (s : Store) (admin : Role) : Store :=
  set_permissions admin
    (permissions s admin ∪ rows_where valid (ab_permission_view s)) s.


(** A store with the usual roles and a dag role, one dag, a faulty row that
    no role holds, and grants on the dag held by User and by the dag role. *)
Definition sample_store : Store :=
  {| ab_permission := {[ "can_show"; "can_dag_read" ]};
     ab_view_menu := {[ "Airflow"; "wf-1"; "all_dags" ]};
     ab_permission_view :=
       {[ 1 := {| permission := Some "can_show"; view_menu := Some "Airflow" |};
          2 := {| permission := None; view_menu := Some "wf-1" |};
          3 := {| permission := Some "can_dag_read"; view_menu := Some "wf-1" |} ]};
     ab_role := {[ 1 := "Admin"; 2 := "Viewer"; 3 := "User"; 4 := "wf-1-editors" ]};
     ab_permission_view_role := {[ (3, 3); (3, 4) ]};
     ab_permission_view_role_null := 0;
     dag := [ {| dag_id := "wf-1"; is_active := true; is_paused := false;
                 is_subdag := false |} ] |}.

Definition sample_dag_role : Role := {| id := 4; name := "wf-1-editors" |}.

(** The current user holds the dag role only. *)
Definition sample_context : Context :=
  {| g_user := {| is_anonymous := false; roles := [sample_dag_role] |} |}.

(** The grants of User not on [all_dags], read as rows and read as valid
    grants: the reference set as the propagation is described. *)
Definition off_wildcard (s : Store) (r : Role) : gmap nat PermissionView :=
  rows_where (λ pv, view_menu pv ≠ Some "all_dags") (permissions s r).

Definition off_wildcard_valid (s : Store) (r : Role) : gmap nat PermissionView :=
  rows_where valid (off_wildcard s r).

(** The join rows the description has the propagation add for a role. *)
Definition described_rows (reference : gmap nat PermissionView) (s : Store)
    (r : Role) : gset (nat * nat) :=
  set_map (λ i, (i, id r)) (dom reference ∖ existing_perms_views s r).

(** User holds a row without view menu and a row without permission. *)
Definition user_with_half_rows : Store :=
  {| ab_permission := {[ "can_edit" ]};
     ab_view_menu := {[ "all_dags"; "wf-1" ]};
     ab_permission_view :=
       {[ 1 := {| permission := Some "can_edit"; view_menu := None |};
          2 := {| permission := None; view_menu := Some "wf-1" |} ]};
     ab_role := {[ 1 := "User"; 2 := "wf-1-editors" ]};
     ab_permission_view_role := {[ (1, 1); (2, 1) ]};
     ab_permission_view_role_null := 0;
     dag := [] |}.

(** A dag whose id is the empty string, and a dag whose id names the
    permission of a row whose view menu is named as a dag permission. *)
Definition odd_dags : Store :=
  {| ab_permission := {[ "wf-1" ]};
     ab_view_menu := {[ "can_dag_read" ]};
     ab_permission_view :=
       {[ 1 := {| permission := Some "wf-1"; view_menu := Some "can_dag_read" |} ]};
     ab_role := {[ 1 := "Admin" ]};
     ab_permission_view_role := ∅;
     ab_permission_view_role_null := 0;
     dag := [ {| dag_id := ""; is_active := true; is_paused := false;
                 is_subdag := false |};
              {| dag_id := "wf-1"; is_active := true; is_paused := false;
                 is_subdag := false |} ] |}.

(** The dag role holds a grant on [all_dags] and one on a dag. *)
Definition wildcard_holder : Store :=
  {| ab_permission := {[ "can_dag_read" ]};
     ab_view_menu := {[ "all_dags"; "wf-1" ]};
     ab_permission_view :=
       {[ 1 := {| permission := Some "can_dag_read"; view_menu := Some "all_dags" |};
          2 := {| permission := Some "can_dag_read"; view_menu := Some "wf-1" |} ]};
     ab_role := {[ 4 := "wf-1-editors" ]};
     ab_permission_view_role := {[ (1, 4); (2, 4) ]};
     ab_permission_view_role_null := 0;
     dag := [] |}.

Definition sample_admin : Role := {| id := 1; name := "Admin" |}.

Definition sample_user_role : Role := {| id := 3; name := "User" |}.

Definition sample_dag : DagModel :=
  {| dag_id := "wf-1"; is_active := true; is_paused := false;
     is_subdag := false |}.


(** The three roles of [ROLE_CONFIGS] exist and hold nothing. *)
Definition unseeded_store : Store :=
  {| ab_permission := {[ "can_show"; "can_edit"; "can_conf" ]};
     ab_view_menu := {[ "Airflow"; "Configurations" ]};
     ab_permission_view :=
       {[ 1 := {| permission := Some "can_show"; view_menu := Some "Airflow" |};
          2 := {| permission := Some "can_edit"; view_menu := Some "Airflow" |};
          3 := {| permission := Some "can_conf";
                  view_menu := Some "Configurations" |} ]};
     ab_role := {[ 1 := "Admin"; 2 := "Viewer"; 3 := "User"; 4 := "Op" ]};
     ab_permission_view_role := ∅;
     ab_permission_view_role_null := 0;
     dag := [] |}.

Definition Viewer_config : RoleConfig :=
  {| role := "Viewer"; perms := VIEWER_PERMS; vms := VIEWER_VMS ∪ DAG_VMS |}.

Definition User_config : RoleConfig :=
  {| role := "User";
     perms := VIEWER_PERMS ∪ USER_PERMS ∪ DAG_PERMS;
     vms := VIEWER_VMS ∪ DAG_VMS ∪ USER_VMS |}.

Definition Op_config : RoleConfig :=
  {| role := "Op";
     perms := VIEWER_PERMS ∪ USER_PERMS ∪ OP_PERMS ∪ DAG_PERMS;
     vms := VIEWER_VMS ∪ DAG_VMS ∪ USER_VMS ∪ OP_VMS |}.

(** The current user holds the role User of [user_with_half_rows]. *)
Definition half_rows_context : Context :=
  {| g_user := {| is_anonymous := false;
                  roles := [ {| id := 1; name := "User" |} ] |} |}.





(** What was raised, if anything. *)
Definition raised (r : result) : option exn :=
  match r with Done _ => None | Raised e _ => Some e end.

(** Admin holds a faulty row and a valid one; Viewer holds nothing. *)
Definition admin_with_faulty_grant : Store :=
  {| ab_permission := {[ "can_show" ]};
     ab_view_menu := {[ "Airflow" ]};
     ab_permission_view :=
       {[ 1 := {| permission := None; view_menu := Some "Airflow" |};
          2 := {| permission := Some "can_show"; view_menu := Some "Airflow" |} ]};
     ab_role := {[ 1 := "Admin"; 2 := "Viewer" ]};
     ab_permission_view_role := {[ (1, 1); (2, 1) ]};
     ab_permission_view_role_null := 0;
     dag := [] |}.

(** No row of [ab_permission_view] lacks a reference. *)
Definition no_faulty_row (s : Store) : Prop :=
  ∀ i pv, ab_permission_view s !! i = Some pv → valid pv.


(** The dag role holds nothing; User holds a grant on a dag and one on
    [all_dags]. *)
Definition editors_without_grants : Store :=
  {| ab_permission := {[ "can_edit" ]};
     ab_view_menu := {[ "wf-1"; "all_dags" ]};
     ab_permission_view :=
       {[ 1 := {| permission := Some "can_edit"; view_menu := Some "wf-1" |};
          2 := {| permission := Some "can_edit"; view_menu := Some "all_dags" |} ]};
     ab_role := {[ 3 := "User"; 4 := "wf-1-editors" ]};
     ab_permission_view_role := {[ (1, 3); (2, 3) ]};
     ab_permission_view_role_null := 0;
     dag := [] |}.

(** * Properties *)

(** ** Keyed tables *)

Section tables.
Context {V : Type}.
Implicit Types (m : gmap nat V) (i : nat) (v : V).

Lemma set_fold_max_ge (X : gset nat) i : i ∈ X → i ≤ set_fold Nat.max 0 X.
Proof.
  revert i. apply (set_fold_ind_L (λ r Y, ∀ i, i ∈ Y → i ≤ r)).
  - intros i Hi. set_solver.
  - intros x Y r _ IH i [->%elem_of_singleton | Hi]%elem_of_union.
    + lia.
    + specialize (IH i Hi). lia.
Qed.

Lemma next_id_gt m i v : m !! i = Some v → i < next_id m.
Proof.
  intros Hi. unfold next_id.
  assert (i ∈ dom m) as Hd by (apply elem_of_dom; eauto).
  apply set_fold_max_ge in Hd. lia.
Qed.

Lemma next_id_fresh m : m !! next_id m = None.
Proof.
  destruct (m !! next_id m) as [v|] eqn:E; [|done].
  apply next_id_gt in E. lia.
Qed.

Lemma next_id_insert_lt m v : next_id m < next_id (<[next_id m := v]> m).
Proof. apply (next_id_gt _ _ v). by rewrite lookup_insert_eq. Qed.

Context (P : V → Prop) `{!∀ v, Decision (P v)}.

Lemma probe_Some m i x :
  probe P m i = Some x ↔ x.1 = i ∧ m !! i = Some x.2 ∧ P x.2.
Proof.
  unfold probe. destruct x as [j v]; simpl. split.
  - destruct (m !! i) as [w|]; simpl; [|done].
    case_decide; [|done]. by intros [= <- <-].
  - intros (-> & -> & ?); simpl. by rewrite decide_True.
Qed.

Lemma query_first_Some m i v :
  query_first P m = Some (i, v) → m !! i = Some v ∧ P v.
Proof.
  unfold query_first. intros Hq%head_Some_elem_of.
  apply list_elem_of_omap in Hq as (j & _ & Hj).
  apply probe_Some in Hj as (? & ? & ?); simplify_eq/=. done.
Qed.

Lemma query_first_is_Some m i v :
  m !! i = Some v → P v → is_Some (query_first P m).
Proof.
  intros Hi HP. unfold query_first.
  assert ((i, v) ∈ omap (probe P m) (seq 0 (next_id m))) as Hin.
  { apply list_elem_of_omap. exists i. split.
    - apply elem_of_seq. apply next_id_gt in Hi. lia.
    - by apply probe_Some. }
  destruct (omap _ _) as [|x l]; [by apply elem_of_nil in Hin | by eexists].
Qed.

Lemma query_first_None m :
  query_first P m = None ↔ ∀ i v, m !! i = Some v → ¬ P v.
Proof.
  split.
  - intros HN i v Hi HP.
    destruct (query_first_is_Some m i v Hi HP) as [x Hx]. congruence.
  - intros Hall. destruct (query_first P m) as [[i v]|] eqn:E; [|done].
    apply query_first_Some in E as [Hi HP]. by destruct (Hall i v).
Qed.

(** A query keeps its answer when a row is inserted under a new key. *)
Lemma query_first_insert_next m v x :
  query_first P m = Some x → query_first P (<[next_id m := v]> m) = Some x.
Proof.
  unfold query_first. intros Hq.
  pose proof (next_id_insert_lt m v) as Hlt.
  replace (next_id (<[next_id m := v]> m))
    with (next_id m + (next_id (<[next_id m := v]> m) - next_id m)) by lia.
  rewrite seq_app, omap_app.
  assert (omap (probe P (<[next_id m := v]> m)) (seq 0 (next_id m))
          = omap (probe P m) (seq 0 (next_id m))) as ->.
  { apply list_omap_ext with (l2 := seq 0 (next_id m)).
    apply Forall2_same_length_lookup_2; [done|].
    intros i a b Ha Hb. simplify_eq.
    apply lookup_seq in Ha as [-> Hi]. unfold probe.
    rewrite lookup_insert_ne by lia. done. }
  destruct (omap (probe P m) (seq 0 (next_id m))); [done|]. done.
Qed.

Lemma query_first_insert_next_None m v :
  query_first P m = None → P v →
  query_first P (<[next_id m := v]> m) = Some (next_id m, v).
Proof.
  intros HN HP.
  destruct (query_first_is_Some (<[next_id m := v]> m) (next_id m) v)
    as [[i w] E]; [by rewrite lookup_insert_eq | done |].
  rewrite E. apply query_first_Some in E as [Hi Hw].
  destruct (decide (i = next_id m)) as [->|Hne].
  - rewrite lookup_insert_eq in Hi. by simplify_eq.
  - rewrite lookup_insert_ne in Hi by done.
    rewrite query_first_None in HN. by destruct (HN i w).
Qed.
End tables.

(** ** Rows and their references *)

Lemma faulty_not_valid pv : faulty pv ↔ ¬ valid pv.
Proof.
  unfold faulty, valid. rewrite <- !not_eq_None_Some.
  destruct (permission pv), (view_menu pv); split.
  all: try (intros [?|?] [? ?]; congruence).
  all: intros Hn; first [by left | by right | exfalso; apply Hn; split; congruence].
Qed.

Lemma pv_is_valid p v pv : pv_is p v pv → valid pv.
Proof. intros [Hp Hv]. split; eauto. Qed.

Lemma rows_where_lookup {V} (P : V → Prop) `{!∀ v, Decision (P v)}
    (m : gmap nat V) i v :
  rows_where P m !! i = Some v ↔ m !! i = Some v ∧ P v.
Proof. unfold rows_where. by rewrite map_lookup_filter_Some. Qed.

Lemma permissions_lookup s r i pv :
  permissions s r !! i = Some pv ↔
  ab_permission_view s !! i = Some pv ∧ (i, id r) ∈ ab_permission_view_role s.
Proof. unfold permissions. by rewrite map_lookup_filter_Some. Qed.

Lemma find_permission_Some s p : p ∈ ab_permission s → find_permission s p = Some p.
Proof. intros. unfold find_permission. by rewrite decide_True. Qed.

Lemma find_permission_is_Some s p x : find_permission s p = Some x → x = p ∧ p ∈ ab_permission s.
Proof. unfold find_permission. case_decide; [|done]. by intros [= <-]. Qed.

Lemma find_view_menu_is_Some s v x : find_view_menu s v = Some x → x = v ∧ v ∈ ab_view_menu s.
Proof. unfold find_view_menu. case_decide; [|done]. by intros [= <-]. Qed.

Lemma find_permission_view_menu_is_Some s p v :
  has_valid_grant s p v → is_Some (find_permission_view_menu s p v).
Proof.
  intros (Hp & Hv & i & pv & Hi & Hpv). unfold find_permission_view_menu.
  cbv zeta. unfold find_view_menu.
  rewrite (find_permission_Some _ _ Hp), (decide_True _ _ Hv).
  by eapply query_first_is_Some.
Qed.

(** What the lookup returns is a row with the references the two lookups
    by name gave: a valid grant only when both names were found. *)
Lemma find_permission_view_menu_Some s p v i pv :
  find_permission_view_menu s p v = Some (i, pv) →
  ab_permission_view s !! i = Some pv ∧
  permission pv = find_permission s p ∧ view_menu pv = find_view_menu s v.
Proof.
  unfold find_permission_view_menu. cbv zeta.
  intros [Hi [Hp Hv]]%query_first_Some. done.
Qed.

Lemma find_permission_view_menu_valid s p v i pv :
  find_permission_view_menu s p v = Some (i, pv) → valid pv →
  has_valid_grant s p v.
Proof.
  intros (Hi & Hp & Hv)%find_permission_view_menu_Some [[p' Hp'] [v' Hv']].
  rewrite Hp in Hp'. rewrite Hv in Hv'.
  apply find_permission_is_Some in Hp' as [-> Hpin].
  apply find_view_menu_is_Some in Hv' as [-> Hvin].
  split; [done|]. split; [done|]. exists i, pv. split; [done|].
  split; [by rewrite Hp, find_permission_Some | by rewrite Hv; unfold find_view_menu; rewrite decide_True].
Qed.

Lemma _merge_perm_present s p v :
  has_valid_grant s p v → _merge_perm p v s = s.
Proof.
  intros (Hp & Hv & i & pv & Hi & Hpv). unfold _merge_perm.
  unfold find_permission, find_view_menu.
  rewrite (decide_True _ _ Hp), (decide_True _ _ Hv).
  destruct (query_first_is_Some (pv_is p v) _ i pv Hi Hpv) as [x ->].
  rewrite decide_False; [done|]. intros [? _]. done.
Qed.

(** What [add_permission_view_menu] leaves in the store. *)
Lemma add_permission_view_menu_spec p v s :
  let s' := add_permission_view_menu p v s in
  ab_permission s' = {[ p ]} ∪ ab_permission s ∧
  ab_view_menu s' = {[ v ]} ∪ ab_view_menu s ∧
  ab_role s' = ab_role s ∧
  ab_permission_view_role s' = ab_permission_view_role s ∧
  dag s' = dag s ∧
  ((grant_rows s p v ≠ ∅ ∧ ab_permission_view s' = ab_permission_view s) ∨
   (grant_rows s p v = ∅ ∧
    ab_permission_view s' =
      <[next_id (ab_permission_view s) :=
          {| permission := Some p; view_menu := Some v |}]>
        (ab_permission_view s))).
Proof.
  unfold add_permission_view_menu; simpl.
  destruct (query_first _ _) as [[i pv]|] eqn:E; simpl.
  - repeat split; try done. left. split; [|done].
    apply query_first_Some in E as [Hi Hpv]. intros Hemp.
    assert (grant_rows s p v !! i = Some pv) as Hin by by apply rows_where_lookup.
    rewrite Hemp in Hin. by rewrite lookup_empty in Hin.
  - repeat split; try done. right. split; [|done].
    apply map_eq. intros i. rewrite lookup_empty.
    destruct (grant_rows s p v !! i) as [pv|] eqn:Hin; [|done].
    apply rows_where_lookup in Hin as [Hi Hpv].
    rewrite query_first_None in E. by destruct (E i pv).
Qed.

Lemma add_permission_view_menu_has_valid_grant p v s :
  has_valid_grant (add_permission_view_menu p v s) p v.
Proof.
  destruct (add_permission_view_menu_spec p v s)
    as (Hp & Hv & _ & _ & _ & Hpvs).
  unfold has_valid_grant. rewrite Hp, Hv.
  split; [set_solver|]. split; [set_solver|].
  destruct Hpvs as [[Hne ->] | [_ ->]].
  - apply map_choose in Hne as (i & pv & Hin).
    apply rows_where_lookup in Hin as [Hi Hpv]. eauto.
  - eexists _, _. split; [apply lookup_insert_eq|]. by split.
Qed.

Lemma add_permission_view_menu_grant_rows p v q w s :
  (q, w) ≠ (p, v) →
  grant_rows (add_permission_view_menu p v s) q w = grant_rows s q w.
Proof.
  intros Hne.
  destruct (add_permission_view_menu_spec p v s)
    as (_ & _ & _ & _ & _ & [[_ Hpvs] | [_ Hpvs]]);
    unfold grant_rows; rewrite Hpvs; [done|].
  unfold rows_where. rewrite map_filter_insert_False.
  - rewrite delete_id; [done|]. apply next_id_fresh.
  - simpl. intros [? ?]; simplify_eq/=.
Qed.

Lemma add_permission_view_menu_present p v s :
  grant_rows s p v ≠ ∅ →
  grant_rows (add_permission_view_menu p v s) p v = grant_rows s p v.
Proof.
  intros Hne.
  destruct (add_permission_view_menu_spec p v s)
    as (_ & _ & _ & _ & _ & [[_ Hpvs] | [Hemp _]]); [|done].
  unfold grant_rows. by rewrite Hpvs.
Qed.

Lemma has_valid_grant_grant_rows s p v :
  has_valid_grant s p v → grant_rows s p v ≠ ∅.
Proof.
  intros (_ & _ & i & pv & Hi & Hpv) Hemp.
  assert (grant_rows s p v !! i = Some pv) as Hin by by apply rows_where_lookup.
  rewrite Hemp in Hin. by rewrite lookup_empty in Hin.
Qed.

Lemma add_permission_view_menu_mono p v q w s :
  has_valid_grant s q w → has_valid_grant (add_permission_view_menu p v s) q w.
Proof.
  intros (Hq & Hw & i & pv & Hi & Hpv).
  destruct (add_permission_view_menu_spec p v s)
    as (Hp' & Hv' & _ & _ & _ & Hpvs).
  unfold has_valid_grant. rewrite Hp', Hv'.
  split; [set_solver|]. split; [set_solver|]. exists i, pv. split; [|done].
  destruct Hpvs as [[_ ->] | [_ ->]]; [done|].
  rewrite lookup_insert_ne; [done|].
  apply next_id_gt in Hi. lia.
Qed.

Lemma sync_perm_grant_rows d perm s p v :
  has_valid_grant s p v →
  grant_rows (sync_perm d s perm) p v = grant_rows s p v.
Proof.
  intros Hg. unfold sync_perm.
  destruct (find_permission_view_menu s perm d) eqn:E; [done|].
  destruct (decide ((p, v) = (perm, d))) as [[= -> ->]|Hne].
  - apply find_permission_view_menu_is_Some in Hg as [x Hx]. congruence.
  - by apply add_permission_view_menu_grant_rows.
Qed.

Lemma sync_perm_mono d perm s p v :
  has_valid_grant s p v → has_valid_grant (sync_perm d s perm) p v.
Proof.
  intros Hg. unfold sync_perm.
  destruct (find_permission_view_menu s perm d); [done|].
  by apply add_permission_view_menu_mono.
Qed.

Lemma sync_perm_present d perm s :
  has_valid_grant s perm d → sync_perm d s perm = s.
Proof.
  intros [x Hx]%find_permission_view_menu_is_Some.
  unfold sync_perm. by rewrite Hx.
Qed.







Lemma foldl_sync_perm_grant_rows d l s p v :
  has_valid_grant s p v →
  grant_rows (foldl (sync_perm d) s l) p v = grant_rows s p v ∧
  has_valid_grant (foldl (sync_perm d) s l) p v.
Proof.
  revert s. induction l as [|perm l IH]; intros s Hg; simpl; [done|].
  destruct (IH (sync_perm d s perm)) as [-> ?].
  - by apply sync_perm_mono.
  - split; [|done]. by apply sync_perm_grant_rows.
Qed.

Lemma foldl_sync_perm_fixed d l s :
  (∀ perm, perm ∈ l → is_Some (find_permission_view_menu s perm d)) →
  foldl (sync_perm d) s l = s.
Proof.
  induction l as [|perm l IH]; intros Hall; simpl; [done|].
  assert (sync_perm d s perm = s) as ->.
  { unfold sync_perm. by destruct (Hall perm) as [x ->]; [left|]. }
  apply IH. intros q Hq. apply Hall. by right.
Qed.


(** ** Orphan cleanup *)

Lemma clean_perms_lookup s i pv :
  ab_permission_view (clean_perms s).1 !! i = Some pv ↔
  ab_permission_view s !! i = Some pv ∧ valid pv.
Proof.
  unfold clean_perms; simpl. rewrite lookup_difference_Some.
  split.
  - intros [Hi Hnone]. split; [done|].
    destruct (decide (valid pv)) as [|Hn]; [done|].
    apply faulty_not_valid in Hn.
    assert (rows_where faulty (ab_permission_view s) !! i = Some pv) as Hin
      by by apply rows_where_lookup.
    congruence.
  - intros [Hi Hv]. split; [done|].
    destruct (rows_where faulty (ab_permission_view s) !! i) as [pv'|] eqn:E; [|done].
    apply rows_where_lookup in E as [Hi' Hf]. simplify_eq.
    by apply faulty_not_valid in Hf.
Qed.

Lemma clean_perms_size s :
  size (ab_permission_view s)
  = size (ab_permission_view (clean_perms s).1)
    + size (rows_where faulty (ab_permission_view s)).
Proof.
  unfold clean_perms; simpl.
  set (m := ab_permission_view s). set (f := rows_where faulty m).
  assert (f ⊆ m) as Hsub by apply map_filter_subseteq.
  rewrite <- (map_difference_union f m Hsub) at 1.
  rewrite map_size_disj_union by (by apply map_disjoint_difference_r1).
  lia.
Qed.

Lemma valid_not_None pv :
  valid pv ↔ permission pv ≠ None ∧ view_menu pv ≠ None.
Proof. unfold valid. by rewrite <- !not_eq_None_Some. Qed.

(** C6. Orphan cleanup: after [clean_perms] exactly the rows with both
    references set remain, each as it was, the other tables are untouched,
    and the log reports the number of rows deleted whenever there are any;
    with exactly one faulty row that number is 1.  A [sync_roles] that
    returns ends with this pass, so its store holds no row with a null
    reference. *)
Theorem clean_perms_removes_faulty (s : Store) :
  let s' := (clean_perms s).1 in
  let deleted := rows_where faulty (ab_permission_view s) in
  (∀ i pv, ab_permission_view s' !! i = Some pv ↔
           ab_permission_view s !! i = Some pv ∧
           permission pv ≠ None ∧ view_menu pv ≠ None) ∧
  ab_permission s' = ab_permission s ∧
  ab_view_menu s' = ab_view_menu s ∧
  ab_role s' = ab_role s ∧
  ab_permission_view_role s' = ab_permission_view_role s ∧
  dag s' = dag s ∧
  size (ab_permission_view s) = size (ab_permission_view s') + size deleted ∧
  (clean_perms s).2
    = CleaningFaultyPerms ::
        (if decide (size deleted = 0) then []
         else [DeletedFaultyPermissions (size deleted)]) ∧
  (∀ i pv, deleted = {[ i := pv ]} →
           (clean_perms s).2 = [CleaningFaultyPerms; DeletedFaultyPermissions 1]) ∧
  (∀ s1, sync_roles s = Done s1 →
         ∀ i pv, ab_permission_view s1 !! i = Some pv →
                 permission pv ≠ None ∧ view_menu pv ≠ None).
Proof.
  cbv zeta. split.
  { intros i pv. rewrite clean_perms_lookup. by rewrite valid_not_None. }
  do 5 (split; [done|]).
  split; [apply clean_perms_size|]. split; [done|]. split.
  - intros i pv Hd. unfold clean_perms; simpl. rewrite Hd.
    by rewrite map_size_singleton.
  - intros s1 Hs i pv Hi. unfold sync_roles in Hs.
    destruct (create_custom_dag_permission_view _) as [s3|]; [|done]; simpl in Hs.
    destruct (update_admin_perm_view s3) as [s4|]; [|done]; simpl in Hs.
    injection Hs as <-. apply clean_perms_lookup in Hi as [_ Hv].
    by apply valid_not_None.
Qed.

(** ** Roles *)

Lemma find_role_Some s n r :
  find_role s n = Some r → ab_role s !! id r = Some n ∧ name r = n.
Proof.
  unfold find_role. destruct (query_first _ _) as [[i m]|] eqn:E; [|done].
  intros [= <-]; simpl. apply query_first_Some in E as [Hi ->]. done.
Qed.

Lemma find_role_is_Some s n i :
  ab_role s !! i = Some n → is_Some (find_role s n).
Proof.
  intros Hi. unfold find_role.
  destruct (query_first_is_Some (λ m, m = n) (ab_role s) i n Hi eq_refl) as [x ->].
  by eexists.
Qed.

Lemma find_role_None s n :
  find_role s n = None ↔ ∀ i, ab_role s !! i ≠ Some n.
Proof.
  split.
  - intros HN i Hi. destruct (find_role_is_Some s n i Hi). congruence.
  - intros Hall. destruct (find_role s n) as [r|] eqn:E; [|done].
    apply find_role_Some in E as [Hi _]. by destruct (Hall (id r)).
Qed.

Lemma find_or_add_role_spec n s :
  let '(r, s') := find_or_add_role n s in
  find_role s' n = Some r ∧
  ab_permission s' = ab_permission s ∧
  ab_view_menu s' = ab_view_menu s ∧
  ab_permission_view s' = ab_permission_view s ∧
  ab_permission_view_role s' = ab_permission_view_role s ∧
  dag s' = dag s ∧
  ((find_role s n = Some r ∧ s' = s) ∨
   (find_role s n = None ∧ r = {| id := next_id (ab_role s); name := n |} ∧
    ab_role s' = <[next_id (ab_role s) := n]> (ab_role s))).
Proof.
  unfold find_or_add_role, add_role.
  destruct (find_role s n) as [r|] eqn:E.
  - repeat split; try done. by left.
  - split; [|repeat split; try done; by right].
    unfold find_role in *; simpl.
    destruct (query_first _ (ab_role s)) eqn:E'; [done|].
    by rewrite (query_first_insert_next_None _ _ _ E' eq_refl).
Qed.

Lemma find_role_add_role_other n m s :
  is_Some (find_role s m) →
  find_role (find_or_add_role n s).2 m = find_role s m.
Proof.
  intros [r Hr]. unfold find_or_add_role, add_role.
  destruct (find_role s n) as [r'|] eqn:E; simpl; [done|].
  unfold find_role in *; simpl.
  destruct (query_first _ (ab_role s)) as [x|] eqn:E'; [|done].
  by rewrite (query_first_insert_next _ _ _ _ E').
Qed.

(** ** The [permissions] relationship *)

Lemma permissions_ext s s' r r' :
  ab_permission_view s' = ab_permission_view s →
  ab_permission_view_role s' = ab_permission_view_role s →
  id r' = id r →
  permissions s' r' = permissions s r.
Proof. unfold permissions. by intros -> -> ->. Qed.

Lemma permissions_subseteq s r : permissions s r ⊆ ab_permission_view s.
Proof. apply map_filter_subseteq. Qed.

Lemma elem_of_assoc_rows r pvs i j :
  (i, j) ∈ assoc_rows r pvs ↔ j = id r ∧ is_Some (pvs !! i).
Proof.
  unfold assoc_rows. rewrite elem_of_map. setoid_rewrite elem_of_dom.
  split.
  - intros (k & [= -> ->] & Hk). done.
  - intros [-> Hi]. by exists i.
Qed.

Lemma set_permissions_lookup r pvs s i j :
  (i, j) ∈ ab_permission_view_role (set_permissions r pvs s) ↔
  ((i, j) ∈ ab_permission_view_role s ∧
   ¬ (j = id r ∧ is_Some (permissions s r !! i))) ∨
  (j = id r ∧ is_Some (pvs !! i)).
Proof.
  unfold set_permissions; simpl.
  rewrite elem_of_union, elem_of_difference, !elem_of_assoc_rows. done.
Qed.

(** After the assignment the role holds exactly the collection assigned. *)
Lemma permissions_set_permissions r pvs s :
  pvs ⊆ ab_permission_view s →
  permissions (set_permissions r pvs s) r = pvs.
Proof.
  intros Hsub. apply map_eq. intros i. apply option_eq. intros pv.
  rewrite permissions_lookup, set_permissions_lookup.
  change (ab_permission_view (set_permissions r pvs s)) with (ab_permission_view s).
  split.
  - intros [Hi [[Ha Hn] | [_ [pv' Hpv']]]].
    + destruct Hn. split; [done|]. exists pv. by apply permissions_lookup.
    + pose proof (lookup_weaken _ _ _ _ Hpv' Hsub). congruence.
  - intros Hpv. split; [by eapply lookup_weaken|]. right. eauto.
Qed.

(** The other roles keep theirs. *)
Lemma permissions_set_permissions_ne r r' pvs s :
  id r' ≠ id r →
  permissions (set_permissions r pvs s) r' = permissions s r'.
Proof.
  intros Hne. apply map_eq. intros i. apply option_eq. intros pv.
  rewrite !permissions_lookup, set_permissions_lookup.
  change (ab_permission_view (set_permissions r pvs s)) with (ab_permission_view s).
  naive_solver.
Qed.

(** Assigning a role the collection it already holds changes nothing. *)
Lemma set_permissions_same r s :
  set_permissions r (permissions s r) s = s.
Proof.
  destruct s as [ps vs pvs rs assoc nulls ds]. unfold set_permissions; simpl.
  unfold set_ab_permission_view_role; simpl. f_equal.
  apply set_eq. intros [i j].
  rewrite elem_of_union, elem_of_difference, elem_of_assoc_rows.
  split; [|destruct (decide (j = id r ∧ is_Some (permissions
    {| ab_permission := ps; ab_view_menu := vs; ab_permission_view := pvs;
       ab_role := rs; ab_permission_view_role := assoc;
       ab_permission_view_role_null := nulls; dag := ds |} r !! i)));
    naive_solver].
  intros [[? _] | [-> [pv Hpv]]]; [done|].
  by apply permissions_lookup in Hpv as [_ ?].
Qed.

(** ** Baseline role seeding *)

(** The collection [init_role] assigns to a role without grants. *)
Lemma init_role_unfold n role_vms role_perms s :
  init_role n role_vms role_perms s =
  let r := (find_or_add_role n s).1 in
  let s1 := (find_or_add_role n s).2 in
  if decide (size (permissions s1 r) = 0) then
    set_permissions r
      (rows_where (in_role_config role_vms role_perms)
                  (rows_where valid (ab_permission_view s))) s1
  else s1.
Proof. unfold init_role. by destruct (find_or_add_role n s). Qed.

Lemma find_or_add_role_permissions n s r :
  permissions (find_or_add_role n s).2 r = permissions s r.
Proof.
  pose proof (find_or_add_role_spec n s) as H.
  destruct (find_or_add_role n s) as [r0 s1]; simpl.
  destruct H as (_ & _ & _ & Hpv & Ha & _). by apply permissions_ext.
Qed.

Lemma init_role_skip n role_vms role_perms s r :
  find_role s n = Some r → permissions s r ≠ ∅ →
  init_role n role_vms role_perms s = s.
Proof.
  intros Hr Hne. rewrite init_role_unfold.
  unfold find_or_add_role. rewrite Hr; simpl.
  rewrite decide_False; [done|]. by rewrite map_size_empty_iff.
Qed.

Lemma init_role_frame n role_vms role_perms s r :
  permissions s r ≠ ∅ →
  permissions (init_role n role_vms role_perms s) r = permissions s r.
Proof.
  intros Hne. rewrite init_role_unfold; cbv zeta.
  pose proof (find_or_add_role_permissions n s) as Hp.
  destruct (find_or_add_role n s) as [r0 s1]; simpl in *.
  case_decide as Hsz; [|apply Hp].
  rewrite permissions_set_permissions_ne; [apply Hp|].
  intros Heq. apply map_size_empty_iff in Hsz.
  rewrite <- (Hp r) in Hne. apply Hne. rewrite <- Hsz.
  by apply permissions_ext.
Qed.

Lemma init_roles_frame s r :
  permissions s r ≠ ∅ → permissions (init_roles s) r = permissions s r.
Proof.
  unfold init_roles. generalize ROLE_CONFIGS. intros l. revert s.
  induction l as [|c l IH]; intros s Hne; simpl; [done|].
  rewrite IH; rewrite init_role_frame; done.
Qed.

Lemma in_role_config_spec role_vms role_perms pv :
  in_role_config role_vms role_perms pv ↔
  ∃ p v, permission pv = Some p ∧ view_menu pv = Some v ∧
         p ∈ role_perms ∧ v ∈ role_vms.
Proof.
  unfold in_role_config. destruct (view_menu pv), (permission pv); naive_solver.
Qed.

Lemma in_role_config_valid role_vms role_perms pv :
  in_role_config role_vms role_perms pv → valid pv.
Proof.
  rewrite in_role_config_spec. intros (p & v & Hp & Hv & _). split; eauto.
Qed.

(** The rows [init_role] selects for a role. *)
Lemma role_pvms_lookup role_vms role_perms (pvs : gmap nat PermissionView) i pv :
  rows_where (in_role_config role_vms role_perms) (rows_where valid pvs) !! i
    = Some pv ↔
  pvs !! i = Some pv ∧ in_role_config role_vms role_perms pv.
Proof.
  rewrite !rows_where_lookup. split; [naive_solver|].
  intros [? ?]. split; [|done]. split; [done|]. by eapply in_role_config_valid.
Qed.

(** ** Stores that grow *)

Lemma grows_refl Q s : grows Q s s.
Proof.
  repeat split; try done. intros i pv Hi Hn. congruence.
Qed.

Lemma grows_trans Q s1 s2 s3 : grows Q s1 s2 → grows Q s2 s3 → grows Q s1 s3.
Proof.
  intros (Hp1 & Hv1 & Hpv1 & Hq1 & Hg1 & Hr1 & Ha1 & Hd1 & Hn1)
         (Hp2 & Hv2 & Hpv2 & Hq2 & Hg2 & Hr2 & Ha2 & Hd2 & Hn2).
  split; [set_solver|]. split; [set_solver|].
  split; [by etrans|].
  split; [|split; [|split; [congruence|split; [congruence|split; congruence]]]].
  - intros i pv Hi3 Hi1.
    destruct (ab_permission_view s2 !! i) as [pv2|] eqn:E.
    + pose proof (lookup_weaken _ _ _ _ E Hpv2). simplify_eq. eauto.
    + eauto.
  - intros p v Hne. rewrite Hg2; rewrite Hg1; done.
Qed.

Lemma grows_weaken (Q Q' : PermissionView → Prop) s s' :
  (∀ pv, Q pv → Q' pv) → grows Q s s' → grows Q' s s'.
Proof.
  intros HQ (? & ? & ? & Hq & ?). repeat split; try tauto.
  intros i pv Hi Hn. eauto.
Qed.

Lemma grows_has_valid_grant Q s s' p v :
  grows Q s s' → has_valid_grant s p v → has_valid_grant s' p v.
Proof.
  intros (Hp & Hv & Hpv & _) (Hp' & Hv' & i & pv & Hi & His).
  split; [set_solver|]. split; [set_solver|].
  exists i, pv. split; [by eapply lookup_weaken | done].
Qed.

Lemma grows_find_role Q s s' n : grows Q s s' → find_role s' n = find_role s n.
Proof. intros (_ & _ & _ & _ & _ & Hr & _). unfold find_role. by rewrite Hr. Qed.

Lemma grows_permissions Q s s' r :
  grows Q s s' → permissions s r ⊆ permissions s' r.
Proof.
  intros (_ & _ & Hpv & _ & _ & _ & Ha & _). unfold permissions. rewrite Ha.
  by apply map_filter_subseteq_mono.
Qed.

Lemma grows_permissions_nonempty Q s s' r :
  grows Q s s' → permissions s r ≠ ∅ → permissions s' r ≠ ∅.
Proof.
  intros Hg Hne Hemp. apply Hne. apply map_empty. intros i.
  destruct (permissions s r !! i) as [pv|] eqn:E; [|done].
  pose proof (lookup_weaken _ _ _ _ E (grows_permissions _ _ _ r Hg)) as H'.
  rewrite Hemp in H'. by rewrite lookup_empty in H'.
Qed.

Lemma add_permission_view_menu_null p v s :
  ab_permission_view_role_null (add_permission_view_menu p v s)
  = ab_permission_view_role_null s.
Proof.
  unfold add_permission_view_menu; simpl.
  by destruct (query_first _ _).
Qed.

Lemma grows_add_permission_view_menu p v s :
  grows (pv_is p v) s (add_permission_view_menu p v s).
Proof.
  destruct (add_permission_view_menu_spec p v s)
    as (Hp & Hv & Hr & Ha & Hd & Hpvs).
  split; [set_solver|]. split; [set_solver|].
  assert (ab_permission_view s ⊆ ab_permission_view (add_permission_view_menu p v s)).
  { destruct Hpvs as [[_ ->] | [_ ->]]; [done|].
    apply insert_subseteq, next_id_fresh. }
  split; [done|].
  split; [|split; [|repeat split; try done; apply add_permission_view_menu_null]].
  - intros i pv Hi Hn. destruct Hpvs as [[_ E] | [_ E]]; rewrite E in Hi.
    + congruence.
    + destruct (decide (i = next_id (ab_permission_view s))) as [->|Hne].
      * rewrite lookup_insert_eq in Hi. by simplify_eq.
      * rewrite lookup_insert_ne in Hi by done. congruence.
  - intros q w Hne. destruct (decide ((q, w) = (p, v))) as [[= -> ->]|].
    + by apply add_permission_view_menu_present.
    + by apply add_permission_view_menu_grant_rows.
Qed.

Lemma grows__merge_perm p v s : grows (pv_is p v) s (_merge_perm p v s).
Proof.
  unfold _merge_perm. case_decide; [|apply grows_refl].
  apply grows_add_permission_view_menu.
Qed.

Lemma _merge_perm_has_valid_grant p v s :
  p ≠ "" → v ≠ "" → has_valid_grant (_merge_perm p v s) p v.
Proof.
  intros Hp Hv. unfold _merge_perm. case_decide as Hd.
  - apply add_permission_view_menu_has_valid_grant.
  - unfold find_permission, find_view_menu in Hd.
    repeat case_decide; try (destruct Hd; done).
    destruct (query_first _ _) as [[i pv]|] eqn:E; [|destruct Hd; done].
    apply query_first_Some in E as [Hi His].
    split; [done|]. split; [done|]. eauto.
Qed.

(** ** Wildcard provisioning *)

Lemma DAG_PERMS_nonempty_name p : p ∈ DAG_PERMS → p ≠ "".
Proof. unfold DAG_PERMS. intros [->%elem_of_singleton | ->%elem_of_singleton]%elem_of_union; done. Qed.

Lemma DAG_VMS_nonempty_name v : v ∈ DAG_VMS → v ≠ "".
Proof. unfold DAG_VMS. intros ->%elem_of_singleton. done. Qed.

Lemma pv_is_dag_perm_view (view_menus : gset string) p v pv :
  p ∈ DAG_PERMS → v ∈ view_menus → pv_is p v pv → dag_perm_view view_menus pv.
Proof. intros. by exists p, v. Qed.

Lemma foldl__merge_perm_grows (view_menus : gset string) l v s :
  (∀ p, p ∈ l → p ∈ DAG_PERMS) → v ∈ view_menus →
  grows (dag_perm_view view_menus) s (foldl (λ s perm, _merge_perm perm v s) s l).
Proof.
  intros Hl Hv. revert s. induction l as [|p l IH]; intros s; simpl.
  - apply grows_refl.
  - eapply grows_trans; [|apply IH; intros q Hq; apply Hl; by right].
    eapply grows_weaken; [|apply grows__merge_perm].
    intros pv. apply pv_is_dag_perm_view; [|done]. apply Hl. by left.
Qed.

Lemma foldl__merge_perm_all l v s p :
  (∀ p, p ∈ l → p ∈ DAG_PERMS) → v ≠ "" → p ∈ l →
  has_valid_grant (foldl (λ s perm, _merge_perm perm v s) s l) p v.
Proof.
  intros Hl Hv. revert s. induction l as [|q l IH]; intros s Hin; simpl.
  - by apply elem_of_nil in Hin.
  - apply elem_of_cons in Hin as [->|Hin].
    + eapply (grows_has_valid_grant (dag_perm_view {[ v ]})).
      * apply foldl__merge_perm_grows; [|set_solver].
        intros p Hp. apply Hl. by right.
      * apply _merge_perm_has_valid_grant; [|done].
        apply DAG_PERMS_nonempty_name, Hl. by left.
    + apply IH; [|done]. intros p' Hp'. apply Hl. by right.
Qed.

Lemma create_perm_vm_for_all_dag_grows s :
  grows (dag_perm_view DAG_VMS) s (create_perm_vm_for_all_dag s).
Proof.
  unfold create_perm_vm_for_all_dag.
  assert (∀ v, v ∈ elements DAG_VMS → v ∈ DAG_VMS) as Hl
    by (intros v; apply elem_of_elements).
  revert s Hl. generalize (elements DAG_VMS) as l.
  induction l as [|v l IH]; intros s Hl; simpl; [apply grows_refl|].
  eapply grows_trans; [|apply IH; intros w Hw; apply Hl; by right].
  apply foldl__merge_perm_grows; [|apply Hl; by left].
  intros p. apply elem_of_elements.
Qed.

Lemma create_perm_vm_for_all_dag_has_valid_grant s p :
  p ∈ DAG_PERMS → has_valid_grant (create_perm_vm_for_all_dag s) p "all_dags".
Proof.
  intros Hp. unfold create_perm_vm_for_all_dag.
  replace (elements DAG_VMS) with ["all_dags"]
    by (unfold DAG_VMS; by rewrite elements_singleton).
  simpl. apply foldl__merge_perm_all; [|done|by apply elem_of_elements].
  intros q. apply elem_of_elements.
Qed.

(** C2. Seeding skip: a role that holds a grant is left as it is by
    [init_role], whatever the catalog baseline passed; its grant set is the
    same after the whole seeding loop; and a role that holds a grant when
    [sync_roles] starts still holds one when the seeding loop starts, and
    has the same grant set after the loop as before it. *)
Theorem seeding_skips_role_with_grants (s : Store) (r : Role) :
  permissions s r ≠ ∅ →
  (∀ role_name role_vms role_perms,
     find_role s role_name = Some r →
     init_role role_name role_vms role_perms s = s) ∧
  (∀ role_name role_vms role_perms,
     permissions (init_role role_name role_vms role_perms s) r
     = permissions s r) ∧
  permissions (init_roles s) r = permissions s r ∧
  (let s1 := create_perm_vm_for_all_dag s in
   permissions s1 r ≠ ∅ ∧
   permissions (init_roles s1) r = permissions s1 r).
Proof.
  intros Hne. split; [|split; [|split]].
  - intros n role_vms role_perms Hr. by eapply init_role_skip.
  - intros n role_vms role_perms. by apply init_role_frame.
  - by apply init_roles_frame.
  - cbv zeta.
    assert (permissions (create_perm_vm_for_all_dag s) r ≠ ∅) as Hne1.
    { eapply grows_permissions_nonempty; [|done].
      apply create_perm_vm_for_all_dag_grows. }
    split; [done|]. by apply init_roles_frame.
Qed.

(** What [init_role] does to the store. *)
Lemma init_role_spec (s : Store) (role_name : string)
    (role_vms role_perms : gset string) :
  let s' := init_role role_name role_vms role_perms s in
  let r := (find_or_add_role role_name s).1 in
  find_role s' role_name = Some r ∧
  (is_Some (find_role s role_name) → ab_role s' = ab_role s) ∧
  (find_role s role_name = None →
     ab_role s !! id r = None ∧ ab_role s' = <[id r := role_name]> (ab_role s)) ∧
  ab_permission s' = ab_permission s ∧
  ab_view_menu s' = ab_view_menu s ∧
  ab_permission_view s' = ab_permission_view s ∧
  dag s' = dag s ∧
  (permissions s r = ∅ →
     ∀ i pv, permissions s' r !! i = Some pv ↔
             ab_permission_view s !! i = Some pv ∧
             ∃ p v, permission pv = Some p ∧ view_menu pv = Some v ∧
                    p ∈ role_perms ∧ v ∈ role_vms) ∧
  (∀ r', id r' ≠ id r → permissions s' r' = permissions s r').
Proof.
  cbv zeta. rewrite init_role_unfold; cbv zeta.
  pose proof (find_or_add_role_spec role_name s) as Hspec.
  pose proof (find_or_add_role_permissions role_name s) as Hperm.
  destruct (find_or_add_role role_name s) as [r s1]; simpl in *.
  destruct Hspec as (Hfind & Hp & Hv & Hpv & Ha & Hd & Hcase).
  set (target := rows_where (in_role_config role_vms role_perms)
                            (rows_where valid (ab_permission_view s))).
  assert (target ⊆ ab_permission_view s1) as Hsub.
  { rewrite Hpv. unfold target.
    etrans; apply map_filter_subseteq. }
  split; [by case_decide|].
  split.
  { intros [r0 Hr0]. destruct Hcase as [[_ ->] | [? _]]; [|congruence].
    by case_decide. }
  split.
  { intros HN. destruct Hcase as [[? _] | (_ & -> & Hr)]; [congruence|]. simpl.
    split; [apply next_id_fresh|]. by case_decide. }
  split; [by case_decide|]. split; [by case_decide|].
  split; [by case_decide|]. split; [by case_decide|].
  split.
  - intros Hemp. rewrite <- Hperm in Hemp.
    rewrite decide_True by (by apply map_size_empty_iff).
    rewrite permissions_set_permissions by done.
    intros i pv. unfold target. rewrite role_pvms_lookup.
    by rewrite in_role_config_spec.
  - intros r' Hne. rewrite <- Hperm. case_decide; [|done].
    by apply permissions_set_permissions_ne.
Qed.

(** C3. Empty-role seeding: [init_role] leaves a role of the given name in
    the store, creating the row under a new key when there was none; when
    that role holds no grant, after the call it holds exactly the rows of
    [ab_permission_view] with a permission in [role_perms] and a view menu
    in [role_vms], both references set; the grant sets of the other roles
    and the other tables are as before. *)
Theorem init_role_seeds_empty_role (s : Store) (role_name : string)
    (role_vms role_perms : gset string) :
  let s' := init_role role_name role_vms role_perms s in
  let r := (find_or_add_role role_name s).1 in
  find_role s' role_name = Some r ∧
  (is_Some (find_role s role_name) → ab_role s' = ab_role s) ∧
  (find_role s role_name = None →
     ab_role s !! id r = None ∧ ab_role s' = <[id r := role_name]> (ab_role s)) ∧
  ab_permission s' = ab_permission s ∧
  ab_view_menu s' = ab_view_menu s ∧
  ab_permission_view s' = ab_permission_view s ∧
  dag s' = dag s ∧
  (permissions s r = ∅ →
     ∀ i pv, permissions s' r !! i = Some pv ↔
             ab_permission_view s !! i = Some pv ∧
             ∃ p v, permission pv = Some p ∧ view_menu pv = Some v ∧
                    p ∈ role_perms ∧ v ∈ role_vms) ∧
  (∀ r', id r' ≠ id r → permissions s' r' = permissions s r').
Proof. apply init_role_spec. Qed.

(** ** Administrator repair *)

Lemma permissions_clean_perms s r :
  permissions (clean_perms s).1 r = rows_where valid (permissions s r).
Proof.
  apply map_eq. intros i. apply option_eq. intros pv.
  rewrite rows_where_lookup, !permissions_lookup, clean_perms_lookup.
  change (ab_permission_view_role (clean_perms s).1) with (ab_permission_view_role s).
  naive_solver.
Qed.

Lemma update_admin_perm_view_Done s admin :
  find_role s "Admin" = Some admin →
  update_admin_perm_view s
  = Done (set_permissions admin
            (permissions s admin ∪ rows_where valid (ab_permission_view s)) s).
Proof. intros H. unfold update_admin_perm_view. by rewrite H. Qed.

Lemma admin_pvms_subseteq s admin :
  permissions s admin ∪ rows_where valid (ab_permission_view s)
  ⊆ ab_permission_view s.
Proof.
  apply map_union_least; [apply permissions_subseteq | apply map_filter_subseteq].
Qed.

(** ** Effective grants *)

Lemma pv_pair_Some pv p v : pv_pair pv = Some (p, v) ↔ pv_is p v pv.
Proof.
  unfold pv_pair, pv_is. destruct (permission pv), (view_menu pv); simpl;
    naive_solver.
Qed.

Lemma pv_pair_is_Some pv : is_Some (pv_pair pv) ↔ valid pv.
Proof.
  unfold pv_pair, valid. destruct (permission pv), (view_menu pv); simpl;
    split; try (intros [? ?]; done); try (intros [[? ?] [? ?]]; done).
  all: intros; repeat split; eauto.
Qed.

Lemma elem_of_pv_names pvs p v :
  (p, v) ∈ pv_names pvs ↔ ∃ i pv, pvs !! i = Some pv ∧ pv_is p v pv.
Proof.
  unfold pv_names. rewrite elem_of_list_to_set, list_elem_of_omap. split.
  - intros ([i pv] & Hin & Hpair). apply elem_of_map_to_list in Hin.
    apply pv_pair_Some in Hpair. eauto.
  - intros (i & pv & Hi & His). exists (i, pv).
    split; [by apply elem_of_map_to_list | by apply pv_pair_Some].
Qed.

Lemma role_perms_views_inr s r :
  all_valid s r → role_perms_views s r = inr (pv_names (permissions s r)).
Proof.
  intros Hall. unfold role_perms_views.
  destruct (mapM _ _) as [l|] eqn:E.
  - f_equal. apply set_eq. intros [p v].
    rewrite elem_of_list_to_set, elem_of_pv_names.
    apply mapM_Some in E. split.
    + intros Hin. apply list_elem_of_lookup in Hin as [k Hk].
      destruct (Forall2_lookup_r _ _ _ _ _ E Hk) as ([i pv] & Hl & Hpair).
      apply list_elem_of_lookup_2, elem_of_map_to_list in Hl.
      apply pv_pair_Some in Hpair. eauto.
    + intros (i & pv & Hi & His).
      apply elem_of_map_to_list, list_elem_of_lookup in Hi as [k Hk].
      destruct (Forall2_lookup_l _ _ _ _ _ E Hk) as (y & Hy & Hpair).
      simpl in Hpair. apply pv_pair_Some in His. simplify_eq.
      by eapply list_elem_of_lookup_2.
  - apply mapM_None, Exists_exists in E as ([i pv] & Hin & Hnone).
    apply elem_of_map_to_list, Hall, pv_pair_is_Some in Hin as [x Hx].
    simpl in Hnone. congruence.
Qed.

Lemma role_perms_views_inl s r :
  ¬ all_valid s r → role_perms_views s r = inl AttributeError.
Proof.
  intros Hn. unfold role_perms_views.
  destruct (mapM _ _) as [l|] eqn:E; [|done]. destruct Hn.
  intros i pv Hi. apply pv_pair_is_Some.
  assert (is_Some (mapM (λ kv : nat * PermissionView, pv_pair kv.2)
                        (map_to_list (permissions s r)))) as HS by eauto.
  apply mapM_is_Some in HS. rewrite Forall_forall in HS.
  apply elem_of_map_to_list in Hi. apply (HS _ Hi).
Qed.

(** The loop of [get_all_permissions_views]. *)
Lemma foldl_role_perms_views s (rs : list Role) acc :
  (∀ r, r ∈ rs → all_valid s r) →
  foldl (update_perms_views s) (inr acc) rs
  = inr (acc ∪ ⋃ ((λ r, pv_names (permissions s r)) <$> rs)).
Proof.
  revert acc. induction rs as [|r rs IH]; intros acc Hall.
  - simpl. f_equal. set_solver.
  - cbn [foldl]. unfold update_perms_views at 2.
    rewrite role_perms_views_inr by (apply Hall; left). cbn [try].
    rewrite IH by (intros r' Hr'; apply Hall; by right).
    rewrite fmap_cons. f_equal. set_solver.
Qed.

Lemma get_all_permissions_views_user c s :
  is_anonymous (g_user c) = false →
  (∀ r, r ∈ roles (g_user c) → all_valid s r) →
  get_all_permissions_views c s = inr (effective_grants s (g_user c)).
Proof.
  intros Hanon Hall. unfold get_all_permissions_views, get_user_roles; simpl.
  unfold effective_grants.
  rewrite Hanon. cbn [try]. rewrite foldl_role_perms_views by done.
  f_equal. set_solver.
Qed.

Lemma elem_of_effective_grants s user p v :
  (p, v) ∈ effective_grants s user ↔
  ∃ r i pv, r ∈ roles user ∧ permissions s r !! i = Some pv ∧ pv_is p v pv.
Proof.
  unfold effective_grants. rewrite elem_of_union_list. split.
  - intros (X & HX & Hin). apply list_elem_of_fmap in HX as (r & -> & Hr).
    apply elem_of_pv_names in Hin as (i & pv & ? & ?). eauto 6.
  - intros (r & i & pv & Hr & Hi & His). exists (pv_names (permissions s r)).
    split; [apply list_elem_of_fmap; eauto|]. apply elem_of_pv_names. eauto.
Qed.

(** ** Accessible dag ids *)

Lemma str_not_in_roles (n : string) (rs : list Role) :
  bool_decide (Str n ∈ (RoleObject <$> rs)) = false.
Proof.
  apply bool_decide_eq_false. intros (r & Hr & _)%list_elem_of_fmap. done.
Qed.

(** The role names [get_accessible_dag_ids] grants every dag to. *)
Lemma full_access_role_names (rs : list Role) :
  {[ "Admin"; "Viewer"; "User"; "Op" ]} ∩ list_to_set (name <$> rs) ≠@{gset string} ∅
  ↔ ∃ r, r ∈ rs ∧ name r ∈ ({[ "Admin"; "Viewer"; "User"; "Op" ]} : gset string).
Proof.
  split.
  - intros Hne. apply set_choose_L in Hne as (n & Hn).
    apply elem_of_intersection in Hn as [Hn Hin].
    apply elem_of_list_to_set, list_elem_of_fmap in Hin as (r & -> & Hr). eauto.
  - intros (r & Hr & Hn) Hemp.
    assert (name r ∈ ({[ "Admin"; "Viewer"; "User"; "Op" ]} : gset string)
                     ∩ list_to_set (name <$> rs)) as Hin.
    { apply elem_of_intersection. split; [done|].
      apply elem_of_list_to_set, list_elem_of_fmap. eauto. }
    rewrite Hemp in Hin. by apply not_elem_of_empty in Hin.
Qed.

(** C8, as amended.  [get_accessible_dag_ids] returns the empty set for an
    anonymous user.  For a user who is not anonymous and holds no role named
    Public, it returns [DAG_VMS] when one of the user's roles is named
    Admin, Viewer, User or Op; otherwise, when the user is the current user
    [g.user] and none of the user's grants lacks a reference, it returns
    the view-menu names paired with [can_dag_read] or [can_dag_edit] in the
    user's effective grants. *)
Theorem get_accessible_dag_ids_by_role_names (c : Context) (s : Store)
    (username : option User) :
  let user := default (g_user c) username in
  (is_anonymous user = true → get_accessible_dag_ids c s username = inr ∅) ∧
  (is_anonymous user = false →
   (∀ r, r ∈ roles user → name r ≠ "Public") →
   ((∃ r, r ∈ roles user ∧
          name r ∈ ({[ "Admin"; "Viewer"; "User"; "Op" ]} : gset string)) →
    get_accessible_dag_ids c s username = inr DAG_VMS) ∧
   ((∀ r, r ∈ roles user →
          name r ∉ ({[ "Admin"; "Viewer"; "User"; "Op" ]} : gset string)) →
    user = g_user c →
    (∀ r, r ∈ roles user → all_valid s r) →
    ∃ ids, get_accessible_dag_ids c s username = inr ids ∧
           ∀ v, v ∈ ids ↔
                ∃ p, p ∈ DAG_PERMS ∧ (p, v) ∈ effective_grants s user)).
Proof.
  cbv zeta. unfold get_accessible_dag_ids.
  set (user := default (g_user c) username). split.
  - intros ->. done.
  - intros Hanon _. rewrite Hanon, str_not_in_roles. simpl. split.
    + intros Hfull. rewrite decide_True; [done|]. by apply full_access_role_names.
    + intros Hnone Hcur Hvalid. rewrite decide_False.
      2:{ intros (r & Hr & Hn)%full_access_role_names.
          by apply (Hnone r). }
      rewrite Hcur in Hanon, Hvalid |- *.
      rewrite get_all_permissions_views_user by done. simpl.
      eexists. split; [done|]. intros v.
      rewrite elem_of_map. split.
      * intros ([p w] & -> & [Hp Hin]%elem_of_filter). exists p. done.
      * intros (p & Hp & Hin). exists (p, v). split; [done|].
        by apply elem_of_filter.
Qed.

(** ** The permission cache *)

(** C10. Cache staleness is one-sided.  When [_has_perm] returns [False],
    the permission set was recomputed from the current user's roles during
    the call, is what the cache now holds, and does not contain the pair.
    When the pair is in the cache, [True] is returned with the cache as it
    was, whatever the store holds; so there are a store and a cache for
    which [True] is returned although the recomputed set is empty. *)
Theorem has_perm_stale_only_when_true :
  (∀ c s self_perms p v self_perms',
     _has_perm c s self_perms p v = (inr false, self_perms') →
     ∃ perms, get_all_permissions_views c s = inr perms ∧
              self_perms' = Some perms ∧ (p, v) ∉ perms) ∧
  (∀ c s self_perms p v,
     cached self_perms p v = true →
     _has_perm c s self_perms p v = (inr true, self_perms)) ∧
  (_has_perm stale_context empty_store stale_cache "can_dag_read" "all_dags"
     = (inr true, stale_cache) ∧
   get_all_permissions_views stale_context empty_store = inr ∅).
Proof.
  split; [|split].
  - intros c s self_perms p v self_perms'. unfold _has_perm.
    destruct (cached self_perms p v); [done|].
    unfold _get_and_cache_perms.
    destruct (get_all_permissions_views c s) as [e|perms]; [done|].
    intros [= Hc <-]. exists perms. split; [done|]. split; [done|].
    simpl in Hc. by apply bool_decide_eq_false in Hc.
  - intros c s self_perms p v Hc. unfold _has_perm. by rewrite Hc.
  - split; [|done]. unfold _has_perm, stale_cache, cached.
    rewrite bool_decide_eq_true_2; [done|]. set_solver.
Qed.

(** ** What the seeding loop leaves alone *)

Lemma find_role_ext s s' n : ab_role s' = ab_role s → find_role s' n = find_role s n.
Proof. unfold find_role. by intros ->. Qed.

Lemma has_valid_grant_ext s s' p v :
  ab_permission s' = ab_permission s →
  ab_view_menu s' = ab_view_menu s →
  ab_permission_view s' = ab_permission_view s →
  has_valid_grant s p v → has_valid_grant s' p v.
Proof. unfold has_valid_grant. by intros -> -> ->. Qed.

Lemma init_role_tables n role_vms role_perms s :
  let s' := init_role n role_vms role_perms s in
  ab_permission s' = ab_permission s ∧
  ab_view_menu s' = ab_view_menu s ∧
  ab_permission_view s' = ab_permission_view s ∧
  dag s' = dag s ∧
  ab_role s' = ab_role (find_or_add_role n s).2.
Proof.
  destruct (init_role_spec s n role_vms role_perms)
    as (_ & _ & _ & Hp & Hv & Hpv & Hd & _).
  cbv zeta. repeat split; try done.
  rewrite init_role_unfold; cbv zeta. by case_decide.
Qed.

Lemma init_role_find_role n role_vms role_perms s :
  is_Some (find_role (init_role n role_vms role_perms s) n).
Proof.
  destruct (init_role_spec s n role_vms role_perms) as (H & _).
  eauto.
Qed.

Lemma init_role_find_role_other n role_vms role_perms s m :
  is_Some (find_role s m) →
  find_role (init_role n role_vms role_perms s) m = find_role s m.
Proof.
  intros Hm. destruct (init_role_tables n role_vms role_perms s)
    as (_ & _ & _ & _ & Hr).
  rewrite (find_role_ext _ _ _ Hr). by apply find_role_add_role_other.
Qed.

Lemma init_roles_tables s :
  ab_permission (init_roles s) = ab_permission s ∧
  ab_view_menu (init_roles s) = ab_view_menu s ∧
  ab_permission_view (init_roles s) = ab_permission_view s ∧
  dag (init_roles s) = dag s.
Proof.
  unfold init_roles. generalize ROLE_CONFIGS as l. intros l. revert s.
  induction l as [|c l IH]; intros s; simpl; [done|].
  destruct (IH (init_role (role c) (vms c) (perms c) s)) as (-> & -> & -> & ->).
  destruct (init_role_tables (role c) (vms c) (perms c) s) as (? & ? & ? & ? & _).
  done.
Qed.

Lemma foldl_init_role_find_role l s m :
  is_Some (find_role s m) →
  find_role (foldl (λ s c, init_role (role c) (vms c) (perms c) s) s l) m
  = find_role s m.
Proof.
  revert s. induction l as [|c l IH]; intros s Hm; simpl; [done|].
  rewrite IH; rewrite init_role_find_role_other; done.
Qed.

Lemma init_roles_find_role s c :
  c ∈ ROLE_CONFIGS → is_Some (find_role (init_roles s) (role c)).
Proof.
  unfold init_roles. generalize ROLE_CONFIGS as l. intros l. revert s.
  induction l as [|c' l IH]; intros s Hin; simpl.
  - by apply elem_of_nil in Hin.
  - apply elem_of_cons in Hin as [->|Hin]; [|by apply IH].
    rewrite foldl_init_role_find_role; apply init_role_find_role.
Qed.

Lemma init_roles_find_role_other s m :
  is_Some (find_role s m) → find_role (init_roles s) m = find_role s m.
Proof. apply foldl_init_role_find_role. Qed.

Lemma init_roles_has_valid_grant s p v :
  has_valid_grant s p v → has_valid_grant (init_roles s) p v.
Proof.
  destruct (init_roles_tables s) as (? & ? & ? & _). by apply has_valid_grant_ext.
Qed.

(** ** Dynamic resource provisioning *)

Lemma foldl_grows {A} Q (f : Store → A → Store) l s :
  (∀ s a, a ∈ l → grows Q s (f s a)) → grows Q s (foldl f s l).
Proof.
  revert s. induction l as [|a l IH]; intros s Hf; simpl; [apply grows_refl|].
  eapply grows_trans; [apply Hf; by left|].
  apply IH. intros s' a' Ha'. apply Hf. by right.
Qed.

Lemma foldl_grows_has_valid_grant {A} Q (f : Store → A → Store) l s a p v :
  (∀ s a, a ∈ l → grows Q s (f s a)) →
  a ∈ l → (∀ s, has_valid_grant (f s a) p v) →
  has_valid_grant (foldl f s l) p v.
Proof.
  intros Hf Ha Hv. revert s. induction l as [|b l IH]; intros s; simpl.
  - by apply elem_of_nil in Ha.
  - apply elem_of_cons in Ha as [<-|Ha].
    + eapply grows_has_valid_grant; [|apply Hv].
      apply foldl_grows. intros s' a' Ha'. apply Hf. by right.
    + apply IH; [|done]. intros s' a' Ha'. apply Hf. by right.
Qed.

Lemma grows_merge_pv all_pvs perm v s :
  grows (pv_is perm v) s (merge_pv all_pvs perm v s).
Proof. unfold merge_pv. case_decide; [apply grows__merge_perm | apply grows_refl]. Qed.

Lemma merge_pv_has_valid_grant all_pvs perm v s :
  v ≠ "" → perm ≠ "" → (v, perm) ∉ all_pvs →
  has_valid_grant (merge_pv all_pvs perm v s) perm v.
Proof.
  intros. unfold merge_pv. rewrite decide_True by done.
  by apply _merge_perm_has_valid_grant.
Qed.

Lemma grows_merge_dag_perms (view_menus : gset string) all_pvs s v :
  v ∈ view_menus →
  grows (dag_perm_view view_menus) s (merge_dag_perms all_pvs s v).
Proof.
  intros Hv. unfold merge_dag_perms. apply foldl_grows.
  intros s' p Hp%elem_of_elements.
  eapply grows_weaken; [|apply grows_merge_pv].
  intros pv. by apply pv_is_dag_perm_view.
Qed.

Lemma merge_dag_perms_has_valid_grant all_pvs s v perm :
  perm ∈ DAG_PERMS → v ≠ "" → (v, perm) ∉ all_pvs →
  has_valid_grant (merge_dag_perms all_pvs s v) perm v.
Proof.
  intros Hp Hv Hn. unfold merge_dag_perms.
  apply (foldl_grows_has_valid_grant (dag_perm_view {[ v ]}) _ _ _ perm).
  - intros s' p Hp'%elem_of_elements.
    eapply grows_weaken; [|apply grows_merge_pv].
    intros pv. apply pv_is_dag_perm_view; [done|set_solver].
  - by apply elem_of_elements.
  - intros s'. apply merge_pv_has_valid_grant; [done| |done].
    by apply DAG_PERMS_nonempty_name.
Qed.

Lemma all_dags_models_ext s s' : dag s' = dag s → all_dags_models s' = all_dags_models s.
Proof. unfold all_dags_models. by intros ->. Qed.

Lemma create_dag_perm_views_grows s :
  grows (dag_perm_view (dag_view_menus s)) s (create_dag_perm_views s).
Proof.
  unfold create_dag_perm_views.
  set (all_pvs := pv_names (ab_permission_view s)).
  set (s1 := foldl (merge_dag_perms all_pvs) s (elements DAG_VMS)).
  assert (grows (dag_perm_view (dag_view_menus s)) s s1) as H1.
  { apply foldl_grows. intros s' v Hv%elem_of_elements.
    apply grows_merge_dag_perms. unfold dag_view_menus. set_solver. }
  eapply grows_trans; [done|].
  assert (all_dags_models s1 = all_dags_models s) as ->.
  { apply all_dags_models_ext. apply H1. }
  apply foldl_grows. intros s' d Hd.
  apply grows_merge_dag_perms. unfold dag_view_menus.
  apply elem_of_union_r, elem_of_list_to_set, list_elem_of_fmap. eauto.
Qed.

Lemma create_dag_perm_views_has_valid_grant s d perm :
  d ∈ all_dags_models s → perm ∈ DAG_PERMS → dag_id d ≠ "" →
  (dag_id d, perm) ∉ pv_names (ab_permission_view s) →
  has_valid_grant (create_dag_perm_views s) perm (dag_id d).
Proof.
  intros Hd Hp Hne Hn. unfold create_dag_perm_views.
  set (all_pvs := pv_names (ab_permission_view s)).
  set (s1 := foldl (merge_dag_perms all_pvs) s (elements DAG_VMS)).
  assert (all_dags_models s1 = all_dags_models s) as ->.
  { apply all_dags_models_ext.
    assert (grows (dag_perm_view DAG_VMS) s s1) as H1; [|apply H1].
    apply foldl_grows. intros s' v Hv%elem_of_elements.
    by apply grows_merge_dag_perms. }
  apply (foldl_grows_has_valid_grant (dag_perm_view (dag_view_menus s)) _ _ _ d).
  - intros s' d' Hd'. apply grows_merge_dag_perms. unfold dag_view_menus.
    apply elem_of_union_r, elem_of_list_to_set, list_elem_of_fmap. eauto.
  - done.
  - intros s'. by apply merge_dag_perms_has_valid_grant.
Qed.

Lemma grows_provisions Q s s' : grows Q s s' → provisions Q s s'.
Proof. intros (? & ? & ? & ? & ? & _ & _ & ? & _). by repeat split. Qed.

Lemma provisions_same Q s s' :
  ab_permission s' = ab_permission s →
  ab_view_menu s' = ab_view_menu s →
  ab_permission_view s' = ab_permission_view s →
  dag s' = dag s →
  provisions Q s s'.
Proof.
  intros Hp Hv Hpv Hd. unfold provisions, grant_rows. rewrite Hp, Hv, Hpv.
  repeat split; try done. intros i pv ? ?. congruence.
Qed.

Lemma provisions_trans Q s1 s2 s3 :
  provisions Q s1 s2 → provisions Q s2 s3 → provisions Q s1 s3.
Proof.
  intros (Hp1 & Hv1 & Hpv1 & Hq1 & Hg1 & Hd1) (Hp2 & Hv2 & Hpv2 & Hq2 & Hg2 & Hd2).
  split; [set_solver|]. split; [set_solver|].
  split; [by etrans|]. split; [|split; [|congruence]].
  - intros i pv Hi3 Hi1.
    destruct (ab_permission_view s2 !! i) as [pv2|] eqn:E.
    + pose proof (lookup_weaken _ _ _ _ E Hpv2). simplify_eq. eauto.
    + eauto.
  - intros p v Hne. rewrite Hg2; rewrite Hg1; done.
Qed.

Lemma provisions_weaken (Q Q' : PermissionView → Prop) s s' :
  (∀ pv, Q pv → Q' pv) → provisions Q s s' → provisions Q' s s'.
Proof.
  intros HQ (? & ? & ? & Hq & ?). repeat split; try tauto.
  intros i pv Hi Hn. eauto.
Qed.

Lemma provisions_has_valid_grant Q s s' p v :
  provisions Q s s' → has_valid_grant s p v → has_valid_grant s' p v.
Proof.
  intros (Hp & Hv & Hpv & _) (Hp' & Hv' & i & pv & Hi & His).
  split; [set_solver|]. split; [set_solver|].
  exists i, pv. split; [by eapply lookup_weaken | done].
Qed.

Lemma dag_perm_view_mono (X Y : gset string) pv :
  X ⊆ Y → dag_perm_view X pv → dag_perm_view Y pv.
Proof. intros HXY (p & v & ? & ? & ?). exists p, v. set_solver. Qed.

Lemma dag_view_menus_ext s s' : dag s' = dag s → dag_view_menus s' = dag_view_menus s.
Proof. intros H. unfold dag_view_menus. by rewrite (all_dags_models_ext _ _ H). Qed.

Lemma before_grant_provisions s :
  provisions (dag_perm_view (dag_view_menus s)) s (before_grant s).
Proof.
  unfold before_grant.
  set (s1 := create_perm_vm_for_all_dag s). set (s2 := init_roles s1).
  assert (provisions (dag_perm_view (dag_view_menus s)) s s1) as H1.
  { apply grows_provisions. eapply grows_weaken; [|apply create_perm_vm_for_all_dag_grows].
    intros pv. apply dag_perm_view_mono. unfold dag_view_menus. set_solver. }
  assert (provisions (dag_perm_view (dag_view_menus s)) s1 s2) as H2.
  { destruct (init_roles_tables s1) as (? & ? & ? & ?). by apply provisions_same. }
  assert (dag s2 = dag s) as Hd.
  { destruct H1 as (_ & _ & _ & _ & _ & <-). apply H2. }
  eapply provisions_trans; [done|]. eapply provisions_trans; [done|].
  apply grows_provisions. rewrite <- (dag_view_menus_ext _ _ Hd).
  apply create_dag_perm_views_grows.
Qed.

Lemma DAG_VMS_not_DAG_PERMS v : v ∈ DAG_VMS → v ∉ DAG_PERMS.
Proof. unfold DAG_VMS, DAG_PERMS. intros ->%elem_of_singleton. set_solver. Qed.

Lemma before_grant_has_valid_grant s d perm :
  d ∈ all_dags_models s → perm ∈ DAG_PERMS → dag_id d ≠ "" →
  (dag_id d, perm) ∉ pv_names (ab_permission_view s) →
  has_valid_grant (before_grant s) perm (dag_id d).
Proof.
  intros Hd Hp Hne Hn. unfold before_grant.
  pose proof (create_perm_vm_for_all_dag_grows s) as H1.
  destruct (init_roles_tables (create_perm_vm_for_all_dag s))
    as (_ & _ & Hpv2 & Hd2).
  generalize dependent (init_roles (create_perm_vm_for_all_dag s)).
  generalize dependent (create_perm_vm_for_all_dag s).
  intros s1 H1 s2 Hpv2 Hd2.
  apply create_dag_perm_views_has_valid_grant; [|exact Hp|exact Hne|].
  - rewrite (all_dags_models_ext s s2); [exact Hd|]. rewrite Hd2. apply H1.
  - rewrite Hpv2. intros (i & pv & Hi & His)%elem_of_pv_names.
    destruct H1 as (_ & _ & Hsub & Hnew & _).
    destruct (ab_permission_view s !! i) as [pv'|] eqn:E.
    + pose proof (lookup_weaken _ _ _ _ E Hsub). simplify_eq.
      apply Hn, elem_of_pv_names. eauto.
    + destruct (Hnew i pv Hi E) as (p & v & [Hp1 Hv1] & _ & Hv').
      destruct His as [_ Hv2]. simplify_eq.
      by apply DAG_VMS_not_DAG_PERMS in Hv'.
Qed.

(** ** The passes of [sync_roles] *)

Lemma User_in_ROLE_CONFIGS :
  ∃ c, c ∈ ROLE_CONFIGS ∧ role c = "User".
Proof. eexists. split; [apply list_elem_of_In; right; left; reflexivity|done]. Qed.

Lemma before_grant_find_role s c :
  c ∈ ROLE_CONFIGS → is_Some (find_role (before_grant s) (role c)).
Proof.
  intros Hc. unfold before_grant.
  rewrite (grows_find_role _ _ _ _ (create_dag_perm_views_grows _)).
  by apply init_roles_find_role.
Qed.

Lemma before_grant_all_dags s p :
  p ∈ DAG_PERMS → has_valid_grant (before_grant s) p "all_dags".
Proof.
  intros Hp. unfold before_grant.
  eapply grows_has_valid_grant; [apply create_dag_perm_views_grows|].
  by apply init_roles_has_valid_grant, create_perm_vm_for_all_dag_has_valid_grant.
Qed.

Lemma find_view_menu_Some s v : v ∈ ab_view_menu s → find_view_menu s v = Some v.
Proof. intros. unfold find_view_menu. by rewrite decide_True. Qed.

Lemma grant_user_perms_Done s user_role :
  find_role s "User" = Some user_role → "all_dags" ∈ ab_view_menu s →
  grant_user_perms_to_dag_roles s = Done (granted s user_role).
Proof.
  intros Hu Hv. unfold grant_user_perms_to_dag_roles.
  by rewrite Hu, find_view_menu_Some.
Qed.

Lemma update_admin_perm_view_Raised s :
  find_role s "Admin" = None → update_admin_perm_view s = Raised AttributeError s.
Proof. intros H. unfold update_admin_perm_view. by rewrite H. Qed.

(** [sync_roles] gets as far as the administrator repair; it raises there
    when there is no role Admin, and returns otherwise. *)
Lemma sync_roles_cases s :
  ∃ user_role,
    find_role (before_grant s) "User" = Some user_role ∧
    create_custom_dag_permission_view (init_roles (create_perm_vm_for_all_dag s))
    = Done (granted (before_grant s) user_role) ∧
    match find_role (before_grant s) "Admin" with
    | None =>
        sync_roles s = Raised AttributeError (granted (before_grant s) user_role)
    | Some admin =>
        sync_roles s
        = Done (clean_perms (repaired (granted (before_grant s) user_role) admin)).1
    end.
Proof.
  destruct User_in_ROLE_CONFIGS as (c & Hc & Hrole).
  destruct (before_grant_find_role s c Hc) as [user_role Hu]. rewrite Hrole in Hu.
  exists user_role. split; [exact Hu|].
  assert ("all_dags" ∈ ab_view_menu (before_grant s)) as Hvm.
  { apply (before_grant_all_dags s "can_dag_read"). unfold DAG_PERMS. set_solver. }
  unfold sync_roles, create_custom_dag_permission_view.
  fold (before_grant s). clear c Hc Hrole.
  generalize dependent (before_grant s). intros bg Hu Hvm.
  rewrite (grant_user_perms_Done bg user_role Hu Hvm).
  split; [reflexivity|]. cbn [bind].
  rewrite <- (find_role_ext bg (granted bg user_role) "Admin" eq_refl).
  destruct (find_role (granted bg user_role) "Admin") as [admin|] eqn:E.
  - rewrite (update_admin_perm_view_Done _ _ E). reflexivity.
  - rewrite (update_admin_perm_view_Raised _ E). reflexivity.
Qed.

Lemma grant_rows_clean_perms s p v :
  grant_rows (clean_perms s).1 p v = grant_rows s p v.
Proof.
  apply map_eq. intros i. apply option_eq. intros pv. unfold grant_rows.
  rewrite !rows_where_lookup, clean_perms_lookup.
  split; [naive_solver|]. intros [? His]. split; [|done]. split; [done|].
  by eapply pv_is_valid.
Qed.


(** The permission, view-menu and permission-view tables of the store
    [sync_roles] ends with, but for the faulty rows the cleanup deletes,
    are those of [before_grant]. *)
Lemma sync_roles_tables s :
  let s' := store_of (sync_roles s) in
  ab_permission s' = ab_permission (before_grant s) ∧
  ab_view_menu s' = ab_view_menu (before_grant s) ∧
  (∀ i pv, ab_permission_view s' !! i = Some pv →
           ab_permission_view (before_grant s) !! i = Some pv) ∧
  (∀ i pv, ab_permission_view (before_grant s) !! i = Some pv → valid pv →
           ab_permission_view s' !! i = Some pv) ∧
  ab_role s' = ab_role (before_grant s) ∧
  dag s' = dag (before_grant s).
Proof.
  destruct (sync_roles_cases s) as (user_role & _ & _ & Hcase). cbv zeta.
  generalize dependent (before_grant s). intros bg Hcase.
  destruct (find_role bg "Admin") as [admin|]; rewrite Hcase; clear Hcase;
    cbn [store_of].
  - split; [reflexivity|]. split; [reflexivity|].
    split; [|split; [|split; reflexivity]].
    + intros i pv Hi. apply clean_perms_lookup in Hi as [Hi _]. exact Hi.
    + intros i pv Hi Hv. apply clean_perms_lookup. split; [exact Hi|exact Hv].
  - split; [reflexivity|]. split; [reflexivity|].
    split; [intros i pv Hi; exact Hi|].
    split; [intros i pv Hi _; exact Hi|]. split; reflexivity.
Qed.

(** C7, as amended.  [create_custom_dag_permission_view] lists the dag
    models with [(is_active or is_paused) and not is_subdag].  After
    [sync_roles], for each of these whose id is not the empty string, and
    each of the two dag permissions, provided no valid row of the store
    pairs a permission named as the dag id with a view menu named as the
    permission, the grant exists with its permission and view-menu rows;
    the rows of a pair that had one are as they were; and every row the
    store did not have is one of a dag permission on [all_dags] or on a
    listed dag id. *)
Theorem sync_roles_provisions_dag_perm_views (s : Store) :
  let s' := store_of (sync_roles s) in
  all_dags_models s
  = filter (λ d, (is_active d || is_paused d) && negb (is_subdag d) = true) (dag s) ∧
  (∀ d perm,
     d ∈ all_dags_models s → perm ∈ DAG_PERMS → dag_id d ≠ "" →
     (dag_id d, perm) ∉ pv_names (ab_permission_view s) →
     has_valid_grant s' perm (dag_id d)) ∧
  (∀ p v, grant_rows s p v ≠ ∅ → grant_rows s' p v = grant_rows s p v) ∧
  (∀ i pv, ab_permission_view s' !! i = Some pv →
           ab_permission_view s !! i = None →
           dag_perm_view (dag_view_menus s) pv).
Proof.
  cbv zeta. split; [done|].
  pose proof (before_grant_provisions s) as (_ & _ & _ & Hnew & Hrows & _).
  destruct (sync_roles_tables s) as (Hp & Hv & Hsub & Hkeep & _ & _).
  split; [|split].
  - intros d perm Hd Hperm Hne Hn.
    destruct (before_grant_has_valid_grant s d perm Hd Hperm Hne Hn)
      as (Hp' & Hv' & i & pv & Hi & His).
    split; [by rewrite Hp|]. split; [by rewrite Hv|].
    exists i, pv. split; [|done]. apply Hkeep; [done|]. by eapply pv_is_valid.
  - intros p v Hne. rewrite <- (Hrows p v Hne).
    apply map_eq. intros i. apply option_eq. intros pv. unfold grant_rows.
    rewrite !rows_where_lookup. split.
    + intros [Hi His]. split; [by apply Hsub | done].
    + intros [Hi His]. split; [|done]. apply Hkeep; [done|]. by eapply pv_is_valid.
  - intros i pv Hi Hnone. apply Hsub in Hi. eauto.
Qed.

(** ** Dynamic role propagation *)

Lemma elem_of_get_all_roles s r :
  r ∈ get_all_roles s ↔ ab_role s !! id r = Some (name r).
Proof.
  unfold get_all_roles. rewrite list_elem_of_fmap. split.
  - intros ([i n] & -> & Hin). by apply elem_of_map_to_list in Hin.
  - intros Hr. exists (id r, name r). split; [by destruct r|].
    by apply elem_of_map_to_list.
Qed.

Lemma elem_of_dag_role s r :
  r ∈ dag_role s ↔ r ∈ get_all_roles s ∧ name r ∉ EXISTING_ROLES.
Proof. unfold dag_role. rewrite list_elem_of_filter. tauto. Qed.

Lemma elem_of_existing_perms_views s r i :
  i ∈ existing_perms_views s r ↔ (i, id r) ∈ ab_permission_view_role s.
Proof.
  unfold existing_perms_views. rewrite elem_of_map. split.
  - intros ([i' j] & -> & [Hj Hin]%elem_of_filter). simpl in *. by subst.
  - intros Hin. exists (i, id r). split; [done|]. by apply elem_of_filter.
Qed.

Lemma on_other_view_menu_spec dag_vm pv :
  on_other_view_menu dag_vm pv ↔ ∃ v, view_menu pv = Some v ∧ v ≠ dag_vm.
Proof. unfold on_other_view_menu. destruct (view_menu pv); naive_solver. Qed.

Lemma elem_of_all_perm_views s user_role dag_vm i :
  i ∈ all_perm_views s user_role dag_vm ↔
  ∃ pv, permissions s user_role !! i = Some pv ∧ on_other_view_menu dag_vm pv.
Proof.
  unfold all_perm_views. rewrite elem_of_dom. unfold is_Some.
  by setoid_rewrite rows_where_lookup.
Qed.

Lemma elem_of_update_perm_views s user_role dag_vm i j :
  (i, j) ∈ update_perm_views s user_role dag_vm ↔
  ∃ r, r ∈ dag_role s ∧ j = id r ∧
       i ∈ all_perm_views s user_role dag_vm ∧
       (i, j) ∉ ab_permission_view_role s.
Proof.
  unfold update_perm_views. rewrite elem_of_union_list. split.
  - intros (X & (r & -> & Hr)%list_elem_of_fmap & Hin).
    apply elem_of_map in Hin as (k & [= -> ->] & [Hk Hn]%elem_of_difference).
    exists r. rewrite elem_of_existing_perms_views in Hn. done.
  - intros (r & Hr & -> & Hi & Hn). eexists. split.
    + apply list_elem_of_fmap. eauto.
    + apply elem_of_map. exists i. split; [done|].
      apply elem_of_difference. by rewrite elem_of_existing_perms_views.
Qed.

(** Two role rows with different names have different keys. *)
Lemma role_ids_differ s r1 r2 :
  ab_role s !! id r1 = Some (name r1) → ab_role s !! id r2 = Some (name r2) →
  name r1 ≠ name r2 → id r1 ≠ id r2.
Proof. intros H1 H2 Hne Heq. rewrite Heq in H1. congruence. Qed.

Lemma dag_role_not_named s r n :
  r ∈ dag_role s → n ∈ EXISTING_ROLES → name r ≠ n.
Proof. intros [_ Hn]%elem_of_dag_role Hin Heq. apply Hn. by rewrite Heq. Qed.

Lemma dag_role_id_ne s r r' n :
  r ∈ dag_role s → find_role s n = Some r' → n ∈ EXISTING_ROLES → id r ≠ id r'.
Proof.
  intros Hr Hr' Hn. pose proof (dag_role_not_named _ _ _ Hr Hn) as Hne.
  apply elem_of_dag_role in Hr as [Hr _]. apply elem_of_get_all_roles in Hr.
  apply find_role_Some in Hr' as [Hr' Hname].
  eapply role_ids_differ; [done| |]; by rewrite Hname.
Qed.

Lemma User_existing : "User" ∈ EXISTING_ROLES.
Proof. unfold EXISTING_ROLES. set_solver. Qed.

Lemma Admin_existing : "Admin" ∈ EXISTING_ROLES.
Proof. unfold EXISTING_ROLES. set_solver. Qed.


Lemma granted_assoc s user_role i j :
  (i, j) ∈ ab_permission_view_role (granted s user_role) ↔
  (i, j) ∈ ab_permission_view_role s ∨
  ∃ r, r ∈ dag_role s ∧ j = id r ∧
       i ∈ all_perm_views s user_role "all_dags" ∧
       (i, j) ∉ ab_permission_view_role s.
Proof.
  unfold granted; simpl. by rewrite elem_of_union, elem_of_update_perm_views.
Qed.

(** After the pass a dag role has a join row for every selected id. *)
Lemma granted_covers s user_role r i :
  r ∈ dag_role s → i ∈ all_perm_views s user_role "all_dags" →
  (i, id r) ∈ ab_permission_view_role (granted s user_role).
Proof.
  intros Hr Hi. apply granted_assoc.
  destruct (decide ((i, id r) ∈ ab_permission_view_role s)); [by left|].
  right. by exists r.
Qed.

Lemma granted_null s u :
  ab_permission_view_role_null (granted s u)
  = if decide (ab_permission_view_role (granted s u) = ab_permission_view_role s)
    then S (ab_permission_view_role_null s)
    else ab_permission_view_role_null s.
Proof.
  unfold granted, execute_insert; simpl.
  destruct (decide (update_perm_views s u "all_dags" = ∅)) as [Hemp | Hne].
  - rewrite decide_True; [done|]. rewrite Hemp. set_solver.
  - rewrite decide_False; [done|]. intros Heq. apply Hne.
    apply set_eq. intros [i j]. split; [|set_solver]. intros Hin.
    pose proof Hin as (r & _ & _ & _ & Hnin)%elem_of_update_perm_views.
    destruct Hnin. rewrite <- Heq. set_solver.
Qed.

Lemma repaired_assoc_ne s admin i j :
  j ≠ id admin →
  (i, j) ∈ ab_permission_view_role (repaired s admin) ↔
  (i, j) ∈ ab_permission_view_role s.
Proof.
  intros Hne. unfold repaired. rewrite set_permissions_lookup. naive_solver.
Qed.

(** After propagation, repair and cleanup, a dag role holds every grant of
    the role User that is not on [all_dags]. *)
Lemma cleaned_dag_role_superset bg u admin r i pv :
  find_role bg "User" = Some u → find_role bg "Admin" = Some admin →
  r ∈ dag_role bg →
  permissions (clean_perms (repaired (granted bg u) admin)).1 u !! i = Some pv →
  view_menu pv ≠ Some "all_dags" →
  permissions (clean_perms (repaired (granted bg u) admin)).1 r !! i = Some pv.
Proof.
  intros Hu0 Hadmin Hdr Hi Hvm.
  pose proof (dag_role_id_ne _ _ _ _ Hdr Hu0 User_existing) as Hru.
  pose proof (dag_role_id_ne _ _ _ _ Hdr Hadmin Admin_existing) as Hra.
  assert (id u ≠ id admin) as Hua.
  { pose proof Hu0 as [Hu1 Hun]%find_role_Some.
    pose proof Hadmin as [Ha1 Han]%find_role_Some.
    eapply (role_ids_differ bg); [by rewrite Hun | by rewrite Han |].
    by rewrite Hun, Han. }
  apply permissions_lookup in Hi as [Hpv Ha].
  apply clean_perms_lookup in Hpv as [Hpv Hvalid].
  change (ab_permission_view_role (clean_perms (repaired (granted bg u) admin)).1)
    with (ab_permission_view_role (repaired (granted bg u) admin)) in Ha.
  apply repaired_assoc_ne in Ha; [|done].
  apply granted_assoc in Ha as [Ha | (r' & Hr' & Hid & _)].
  2:{ destruct (dag_role_id_ne _ _ _ _ Hr' Hu0 User_existing). done. }
  change (ab_permission_view (repaired (granted bg u) admin))
    with (ab_permission_view bg) in Hpv.
  assert (i ∈ all_perm_views bg u "all_dags") as Hsel.
  { apply elem_of_all_perm_views. exists pv. split.
    - by apply permissions_lookup.
    - apply on_other_view_menu_spec. destruct Hvalid as [_ [v Hv]].
      exists v. split; [done|]. intros ->. done. }
  apply permissions_lookup. split.
  - apply clean_perms_lookup. done.
  - change (ab_permission_view_role (clean_perms (repaired (granted bg u) admin)).1)
      with (ab_permission_view_role (repaired (granted bg u) admin)).
    apply repaired_assoc_ne; [done|]. by apply granted_covers.
Qed.

(** After a [sync_roles] that returns, a dag role holds every grant of the
    role User that is not on [all_dags]. *)
Lemma sync_roles_dag_role_superset s s' user_role r i pv :
  sync_roles s = Done s' →
  find_role s' "User" = Some user_role →
  r ∈ get_all_roles s' → name r ∉ EXISTING_ROLES →
  permissions s' user_role !! i = Some pv →
  view_menu pv ≠ Some "all_dags" →
  permissions s' r !! i = Some pv.
Proof.
  intros Hsync Hu Hr Hn Hi Hvm.
  destruct (sync_roles_cases s) as (u & Hu0 & _ & Hcase).
  rewrite Hsync in Hcase. clear Hsync.
  generalize dependent (before_grant s). intros bg Hu0 Hcase.
  destruct (find_role bg "Admin") as [admin|] eqn:Hadmin; [|discriminate Hcase].
  injection Hcase as ->.
  change (find_role bg "User" = Some user_role) in Hu.
  rewrite Hu0 in Hu. injection Hu as <-.
  apply cleaned_dag_role_superset; try assumption.
  apply elem_of_dag_role. split; [|exact Hn].
  apply elem_of_get_all_roles. apply elem_of_get_all_roles in Hr. exact Hr.
Qed.

(** C4, as amended.  When the role User and the view menu [all_dags]
    exist, the propagation returns; it changes the join table only; no join
    row is removed; for a role whose name is not reserved the join rows
    added are exactly those of the grants of User whose view menu is set
    and is not [all_dags], less the rows the role had; and every join row
    added is one of such a role.  When there is no join row to add, and
    only then, the insert writes a row of NULLs.  After a [sync_roles] that
    returns, every role whose name is not reserved holds every grant of
    User that is not on [all_dags]. *)
Theorem grant_user_perms_to_dag_roles_additive :
  (∀ s user_role,
     find_role s "User" = Some user_role → "all_dags" ∈ ab_view_menu s →
     ∃ s', grant_user_perms_to_dag_roles s = Done s' ∧
           ab_permission s' = ab_permission s ∧
           ab_view_menu s' = ab_view_menu s ∧
           ab_permission_view s' = ab_permission_view s ∧
           ab_role s' = ab_role s ∧
           dag s' = dag s ∧
           ab_permission_view_role s ⊆ ab_permission_view_role s' ∧
           (∀ r i, r ∈ get_all_roles s → name r ∉ EXISTING_ROLES →
                   ((i, id r) ∈ ab_permission_view_role s' ∧
                    (i, id r) ∉ ab_permission_view_role s) ↔
                   ((∃ pv v, permissions s user_role !! i = Some pv ∧
                             view_menu pv = Some v ∧ v ≠ "all_dags") ∧
                    (i, id r) ∉ ab_permission_view_role s)) ∧
           (∀ i j, (i, j) ∈ ab_permission_view_role s' →
                   (i, j) ∉ ab_permission_view_role s →
                   ∃ r, r ∈ get_all_roles s ∧ (name r ∉ EXISTING_ROLES) ∧
                        j = id r) ∧
           ab_permission_view_role_null s'
           = (if decide (ab_permission_view_role s' = ab_permission_view_role s)
              then S (ab_permission_view_role_null s)
              else ab_permission_view_role_null s)) ∧
  (∀ s s' user_role r,
     sync_roles s = Done s' →
     find_role s' "User" = Some user_role →
     r ∈ get_all_roles s' → name r ∉ EXISTING_ROLES →
     ∀ i pv, permissions s' user_role !! i = Some pv →
             view_menu pv ≠ Some "all_dags" →
             permissions s' r !! i = Some pv).
Proof.
  split.
  - intros s u Hu Hvm. exists (granted s u).
    split; [by apply grant_user_perms_Done|].
    do 5 (split; [done|]). split; [|split; [|split; [|apply granted_null]]].
    + intros [i j] Hin. apply granted_assoc. by left.
    + intros r i Hr Hn. split.
      * intros [Hin Hnin].
        apply granted_assoc in Hin as [Hin | (r' & _ & _ & Hsel & _)]; [done|].
        split; [|done].
        apply elem_of_all_perm_views in Hsel as (pv & Hpv & Hother).
        apply on_other_view_menu_spec in Hother as (v & Hv & Hne). eauto.
      * intros [(pv & v & Hpv & Hv & Hne) Hnin]. split; [|done].
        apply granted_assoc. right.
        exists r. split; [by apply elem_of_dag_role|]. split; [done|].
        split; [|done]. apply elem_of_all_perm_views. exists pv.
        split; [done|]. apply on_other_view_menu_spec. eauto.
    + intros i j Hin Hnin. apply granted_assoc in Hin as [Hin | (r & Hr & -> & _)]; [done|].
      apply elem_of_dag_role in Hr as [? ?]. eauto.
  - intros s s' u r Hsync Hu Hr Hn i pv Hi Hvm.
    by eapply sync_roles_dag_role_superset.
Qed.

(** ** A settled store is a fixed point of the first passes *)

Lemma foldl_fixed {A} (f : Store → A → Store) l s :
  (∀ a, a ∈ l → f s a = s) → foldl f s l = s.
Proof.
  induction l as [|a l IH]; intros Hf; simpl; [done|].
  rewrite Hf by (by left). apply IH. intros b Hb. apply Hf. by right.
Qed.

Lemma set_ab_permission_view_id (s : Store)
    (f : gmap nat PermissionView → gmap nat PermissionView) :
  f (ab_permission_view s) = ab_permission_view s →
  set_ab_permission_view f s = s.
Proof. destruct s. unfold set_ab_permission_view; simpl. by intros ->. Qed.







(** Executed with an empty list, the insert writes a row of NULLs. *)
Lemma execute_insert_empty s : execute_insert ∅ s = null_row s.
Proof.
  destruct s as [ps vs pvs rs assoc nulls ds].
  unfold execute_insert, null_row, set_ab_permission_view_role_null,
    set_ab_permission_view_role; simpl.
  rewrite decide_True by done. f_equal. set_solver.
Qed.


(** ** The first passes leave a settled store *)



Lemma role_pvms_lookup' c s i pv :
  role_pvms c s !! i = Some pv ↔
  ab_permission_view s !! i = Some pv ∧ in_role_config (vms c) (perms c) pv.
Proof. unfold role_pvms. apply role_pvms_lookup. Qed.

Lemma role_pvms_ext c s s' :
  ab_permission_view s' = ab_permission_view s → role_pvms c s' = role_pvms c s.
Proof. unfold role_pvms. by intros ->. Qed.









Lemma ROLE_CONFIGS_not_Admin c : c ∈ ROLE_CONFIGS → role c ≠ "Admin".
Proof.
  unfold ROLE_CONFIGS. rewrite !elem_of_cons, elem_of_nil.
  intros [-> | [-> | [-> | []]]]; done.
Qed.

Lemma init_role_seed c s :
  let r := (find_or_add_role (role c) s).1 in
  permissions s r = ∅ →
  permissions (init_role (role c) (vms c) (perms c) s) r = role_pvms c s.
Proof.
  cbv zeta. intros Hemp.
  destruct (init_role_spec s (role c) (vms c) (perms c))
    as (_ & _ & _ & _ & _ & _ & _ & Hseed & _).
  apply map_eq. intros i. apply option_eq. intros pv.
  rewrite (Hseed Hemp), role_pvms_lookup', in_role_config_spec. done.
Qed.







Lemma no_faulty_grant_all_valid s r : no_faulty_grant s → all_valid s r.
Proof.
  intros H i pv [Hi Ha]%permissions_lookup. by eapply H.
Qed.




(** ** No role to seed comes to hold faulty grants only *)












(** ** The store after the propagation is settled, and stays so *)

Lemma dag_role_ext s s' : ab_role s' = ab_role s → dag_role s' = dag_role s.
Proof. unfold dag_role, get_all_roles. by intros ->. Qed.








(** ** Synchronising twice *)

Lemma find_or_add_role_find_role_ne n m s :
  n ≠ m → find_role (find_or_add_role n s).2 m = find_role s m.
Proof.
  intros Hne. destruct (find_role s m) as [r|] eqn:E.
  - rewrite find_role_add_role_other by (by eexists). exact E.
  - apply find_role_None. intros i Hi.
    rewrite find_role_None in E.
    pose proof (find_or_add_role_spec n s) as Hspec.
    destruct (find_or_add_role n s) as [r s1]; simpl in *.
    destruct Hspec as (_ & _ & _ & _ & _ & _ & [[_ ->] | (_ & _ & Hr)]).
    + by apply (E i).
    + rewrite Hr in Hi.
      destruct (decide (i = next_id (ab_role s))) as [->|Hi'].
      * rewrite lookup_insert_eq in Hi. congruence.
      * rewrite lookup_insert_ne in Hi by done. by apply (E i).
Qed.

Lemma init_role_find_role_ne n role_vms role_perms m s :
  n ≠ m → find_role (init_role n role_vms role_perms s) m = find_role s m.
Proof.
  intros Hne. destruct (init_role_tables n role_vms role_perms s)
    as (_ & _ & _ & _ & Hr).
  rewrite (find_role_ext _ _ _ Hr). by apply find_or_add_role_find_role_ne.
Qed.

Lemma init_roles_find_role_ne m s :
  (∀ c, c ∈ ROLE_CONFIGS → role c ≠ m) →
  find_role (init_roles s) m = find_role s m.
Proof.
  unfold init_roles. generalize ROLE_CONFIGS as l. intros l. revert s.
  induction l as [|c l IH]; intros s Hl; simpl; [done|].
  rewrite IH by (intros c' Hc'; apply Hl; by right).
  apply init_role_find_role_ne, Hl. by left.
Qed.

Lemma before_grant_find_role_Admin s :
  find_role (before_grant s) "Admin" = find_role s "Admin".
Proof.
  unfold before_grant.
  rewrite (grows_find_role _ _ _ _ (create_dag_perm_views_grows _)).
  rewrite init_roles_find_role_ne by apply ROLE_CONFIGS_not_Admin.
  apply (grows_find_role _ _ _ _ (create_perm_vm_for_all_dag_grows s)).
Qed.

(** The passes after the propagation do not look at the rows of NULLs. *)
Lemma repaired_null_row s admin :
  repaired (null_row s) admin = null_row (repaired s admin).
Proof. reflexivity. Qed.

Lemma clean_perms_null_row s :
  (clean_perms (null_row s)).1 = null_row (clean_perms s).1.
Proof. reflexivity. Qed.


Lemma map_union_subseteq_id (m1 m2 : gmap nat PermissionView) :
  m2 ⊆ m1 → m1 ∪ m2 = m1.
Proof.
  intros Hsub. apply map_eq. intros i. apply option_eq. intros x.
  rewrite lookup_union_Some_raw. split; [|by left].
  intros [?|[? ?]]; [done|]. by eapply lookup_weaken.
Qed.

Lemma permissions_admin_cleaned s admin :
  permissions (clean_perms (repaired s admin)).1 admin
  = ab_permission_view (clean_perms (repaired s admin)).1.
Proof.
  rewrite permissions_clean_perms. unfold repaired at 1.
  rewrite permissions_set_permissions by apply admin_pvms_subseteq.
  apply map_eq. intros i. apply option_eq. intros pv.
  rewrite clean_perms_lookup, rows_where_lookup, lookup_union_Some_raw,
    rows_where_lookup, permissions_lookup.
  change (ab_permission_view (repaired s admin)) with (ab_permission_view s).
  split; [naive_solver|]. intros [Hi Hv]. split; [|done].
  destruct (permissions s admin !! i) as [pv'|] eqn:E.
  - left. apply permissions_lookup in E as [? ?]. by simplify_eq.
  - by right.
Qed.

Lemma clean_perms_fixed s :
  (∀ i pv, ab_permission_view s !! i = Some pv → valid pv) →
  (clean_perms s).1 = s.
Proof.
  intros Hall. unfold clean_perms; simpl. apply set_ab_permission_view_id.
  apply map_eq. intros i. apply option_eq. intros pv.
  rewrite lookup_difference_Some. split; [naive_solver|].
  intros Hi. split; [done|].
  apply map_lookup_filter_None_2. right. intros pv' Hi' Hf. simplify_eq.
  apply faulty_not_valid in Hf. by apply Hf, (Hall i).
Qed.


(** C5, as amended.  Administrator repair: when the role Admin exists,
    [update_admin_perm_view] returns, and afterwards Admin holds exactly the
    rows it held before together with every row of [ab_permission_view]
    that has both references set; nothing it held is removed and no other
    table or role changes.  A [sync_roles] that returns has run this pass
    and then the cleanup: after it Admin holds the rows with both
    references set that it held before the pass together with every such
    row of the table, which is every row of [ab_permission_view] then; the
    rows without a reference that it held are gone. *)
Theorem update_admin_perm_view_repairs_admin (s : Store) (admin : Role) :
  find_role s "Admin" = Some admin →
  (∃ s', update_admin_perm_view s = Done s' ∧
         permissions s' admin
         = permissions s admin ∪ rows_where valid (ab_permission_view s) ∧
         permissions s admin ⊆ permissions s' admin ∧
         (∀ r, id r ≠ id admin → permissions s' r = permissions s r) ∧
         ab_permission s' = ab_permission s ∧
         ab_view_menu s' = ab_view_menu s ∧
         ab_permission_view s' = ab_permission_view s ∧
         ab_role s' = ab_role s ∧
         dag s' = dag s) ∧
  (∀ s0 s1,
     create_custom_dag_permission_view
       (init_roles (create_perm_vm_for_all_dag s0)) = Done s →
     sync_roles s0 = Done s1 →
     permissions s1 admin
     = rows_where valid (permissions s admin)
       ∪ rows_where valid (ab_permission_view s) ∧
     permissions s1 admin = ab_permission_view s1).
Proof.
  intros Hadmin. split.
  - eexists. split; [by apply update_admin_perm_view_Done|].
    pose proof (admin_pvms_subseteq s admin) as Hsub.
    rewrite permissions_set_permissions by done.
    split; [done|]. split; [apply map_union_subseteq_l|].
    split; [|done]. intros r Hne. by apply permissions_set_permissions_ne.
  - intros s0 s1 Hs Hsync. unfold sync_roles in Hsync.
    rewrite Hs in Hsync; cbn [bind] in Hsync. clear Hs.
    rewrite (update_admin_perm_view_Done _ _ Hadmin) in Hsync; cbn [bind] in Hsync.
    apply (f_equal store_of) in Hsync. cbn [store_of] in Hsync. subst s1.
    fold (repaired s admin).
    split; [|apply permissions_admin_cleaned].
    rewrite permissions_clean_perms. unfold repaired.
    rewrite permissions_set_permissions by apply admin_pvms_subseteq.
    apply map_eq. intros i. apply option_eq. intros pv.
    rewrite rows_where_lookup, !lookup_union_Some_raw, !rows_where_lookup.
    split.
    + intros [[Hin | [Hnone [Hi Hv]]] Hvalid]; [by left|].
      right. split; [|done]. apply map_lookup_filter_None_2. by left.
    + intros [[Hin Hv] | [_ [Hi Hv]]]; [by split; [left|]|].
      split; [|done].
      destruct (permissions s admin !! i) as [pv'|] eqn:E; [|by right].
      left. apply permissions_lookup in E as [? _]. congruence.
Qed.




(** ** The properties at concrete stores *)

Lemma sample_store_no_faulty_grant : no_faulty_grant sample_store.
Proof.
  intros i j pv Hin Hi.
  assert (i = 3) as ->.
  { unfold sample_store in Hin; simpl in Hin.
    apply elem_of_union in Hin as [Hin | Hin];
      apply elem_of_singleton in Hin; congruence. }
  vm_compute in Hi. injection Hi as <-. split; eexists; reflexivity.
Qed.



(** C5 as stated fails for [sync_roles]: Admin holds a faulty row when the
    run starts and when the repair starts; the repair keeps it, and the
    cleanup that ends the run deletes it, so that Admin holds less after
    the run than before, and not the union the claim gives. *)
Lemma admin_grant_removed_by_sync_roles :
  let s := admin_with_faulty_grant in
  let s0 := store_of (create_custom_dag_permission_view
                        (init_roles (create_perm_vm_for_all_dag s))) in
  let s1 := store_of (sync_roles s) in
  let faulty_row := {| permission := None; view_menu := Some "Airflow" |} in
  find_role s "Admin" = Some sample_admin ∧
  raised (sync_roles s) = None ∧
  permissions s sample_admin !! 1 = Some faulty_row ∧
  permissions s0 sample_admin !! 1 = Some faulty_row ∧
  permissions s1 sample_admin !! 1 = None ∧
  permissions s1 sample_admin
  ≠ permissions s0 sample_admin ∪ rows_where valid (ab_permission_view s1).
Proof.
  cbv zeta. do 5 (split; [vm_compute; reflexivity|]).
  apply (bool_decide_unpack _). vm_compute. exact I.
Qed.

Lemma seeding_skips_role_with_grants_witness :
  permissions sample_store sample_user_role ≠ ∅ ∧
  find_role sample_store "User" = Some sample_user_role ∧
  init_role "User" ∅ ∅ sample_store = sample_store.
Proof.
  assert (permissions sample_store sample_user_role ≠ ∅) as Hne
    by (apply (bool_decide_unpack _); vm_compute; exact I).
  assert (find_role sample_store "User" = Some sample_user_role) as Hf
    by (vm_compute; reflexivity).
  split; [exact Hne|]. split; [exact Hf|].
  exact (proj1 (seeding_skips_role_with_grants _ _ Hne) "User" ∅ ∅ Hf).
Defined.

Lemma init_role_seeds_empty_role_witness :
  permissions sample_store (find_or_add_role "Viewer" sample_store).1 = ∅ ∧
  permissions
    (init_role "Viewer" (VIEWER_VMS ∪ DAG_VMS) VIEWER_PERMS sample_store)
    (find_or_add_role "Viewer" sample_store).1 !! 1
  = Some {| permission := Some "can_show"; view_menu := Some "Airflow" |}.
Proof.
  assert (permissions sample_store (find_or_add_role "Viewer" sample_store).1 = ∅)
    as Hemp by (apply (bool_decide_unpack _); vm_compute; exact I).
  split; [exact Hemp|].
  destruct (init_role_seeds_empty_role sample_store "Viewer"
              (VIEWER_VMS ∪ DAG_VMS) VIEWER_PERMS)
    as (_ & _ & _ & _ & _ & _ & _ & Hseed & _).
  apply (Hseed Hemp). split; [vm_compute; reflexivity|].
  exists "can_show", "Airflow". split; [reflexivity|]. split; [reflexivity|].
  split; apply (bool_decide_unpack _); vm_compute; exact I.
Defined.

Lemma update_admin_perm_view_repairs_admin_witness :
  find_role sample_store "Admin" = Some sample_admin ∧
  ∃ s', update_admin_perm_view sample_store = Done s' ∧
        permissions s' sample_admin
        = permissions sample_store sample_admin
          ∪ rows_where valid (ab_permission_view sample_store).
Proof.
  assert (find_role sample_store "Admin" = Some sample_admin) as Hf
    by (vm_compute; reflexivity).
  split; [exact Hf|].
  destruct (proj1 (update_admin_perm_view_repairs_admin _ _ Hf))
    as (s' & H1 & H2 & _).
  exists s'. split; assumption.
Defined.

Lemma clean_perms_removes_faulty_witness :
  rows_where faulty (ab_permission_view sample_store)
  = {[ 2 := {| permission := None; view_menu := Some "wf-1" |} ]} ∧
  (clean_perms sample_store).2
  = [CleaningFaultyPerms; DeletedFaultyPermissions 1].
Proof.
  assert (rows_where faulty (ab_permission_view sample_store)
          = {[ 2 := {| permission := None; view_menu := Some "wf-1" |} ]}) as H
    by (apply (bool_decide_unpack _); vm_compute; exact I).
  split; [exact H|].
  destruct (clean_perms_removes_faulty sample_store)
    as (_ & _ & _ & _ & _ & _ & _ & _ & Hone & _).
  exact (Hone _ _ H).
Defined.




Lemma sync_roles_provisions_dag_perm_views_witness :
  sample_dag ∈ all_dags_models sample_store ∧
  (("wf-1", "can_dag_edit") ∉ pv_names (ab_permission_view sample_store)) ∧
  has_valid_grant (store_of (sync_roles sample_store)) "can_dag_edit" "wf-1".
Proof.
  assert (sample_dag ∈ all_dags_models sample_store) as Hd
    by (apply (bool_decide_unpack _); vm_compute; exact I).
  assert (("wf-1", "can_dag_edit") ∉ pv_names (ab_permission_view sample_store))
    as Hn by (apply (bool_decide_unpack _); vm_compute; exact I).
  split; [exact Hd|]. split; [exact Hn|].
  destruct (sync_roles_provisions_dag_perm_views sample_store) as (_ & Hg & _).
  apply (Hg sample_dag "can_dag_edit" Hd).
  - apply (bool_decide_unpack _); vm_compute; exact I.
  - discriminate.
  - exact Hn.
Defined.

(** The dag role of [editors_without_grants] receives the grant of User on
    the dag and not the one on [all_dags], and no row of NULLs is
    written. *)
Lemma grant_user_perms_to_dag_roles_additive_witness :
  let s := editors_without_grants in
  find_role s "User" = Some sample_user_role ∧
  "all_dags" ∈ ab_view_menu s ∧
  ∃ s', grant_user_perms_to_dag_roles s = Done s' ∧
        ab_permission_view_role s ⊆ ab_permission_view_role s' ∧
        ((1, 4) ∉ ab_permission_view_role s) ∧
        (1, 4) ∈ ab_permission_view_role s' ∧
        ((2, 4) ∉ ab_permission_view_role s') ∧
        ab_permission_view_role_null s' = ab_permission_view_role_null s.
Proof.
  cbv zeta.
  assert (find_role editors_without_grants "User" = Some sample_user_role) as Hf
    by (vm_compute; reflexivity).
  assert ("all_dags" ∈ ab_view_menu editors_without_grants) as Hv
    by (apply (bool_decide_unpack _); vm_compute; exact I).
  assert (sample_dag_role ∈ get_all_roles editors_without_grants) as Hr
    by (apply (bool_decide_unpack _); vm_compute; exact I).
  assert (name sample_dag_role ∉ EXISTING_ROLES) as Hn
    by (apply (bool_decide_unpack _); vm_compute; exact I).
  assert ((1, 4) ∉ ab_permission_view_role editors_without_grants) as H14
    by (apply (bool_decide_unpack _); vm_compute; exact I).
  assert ((2, 4) ∉ ab_permission_view_role editors_without_grants) as H24
    by (apply (bool_decide_unpack _); vm_compute; exact I).
  split; [exact Hf|]. split; [exact Hv|].
  destruct (proj1 grant_user_perms_to_dag_roles_additive _ _ Hf Hv)
    as (s' & H1 & _ & _ & _ & _ & _ & H2 & Hiff & _ & Hnull).
  exists s'. split; [exact H1|]. split; [exact H2|]. split; [exact H14|].
  split; [|split].
  - apply (Hiff sample_dag_role 1 Hr Hn). split; [|exact H14].
    exists {| permission := Some "can_edit"; view_menu := Some "wf-1" |}, "wf-1".
    split; [vm_compute; reflexivity|]. split; [reflexivity|discriminate].
  - intros Hin.
    destruct (proj1 (Hiff sample_dag_role 2 Hr Hn) (conj Hin H24))
      as [(pv & v & Hpv & Hview & Hne) _].
    vm_compute in Hpv. injection Hpv as <-. injection Hview as <-. by apply Hne.
  - rewrite Hnull. rewrite decide_False; [reflexivity|].
    intros Heq. apply H14. rewrite <- Heq.
    apply (Hiff sample_dag_role 1 Hr Hn). split; [|exact H14].
    exists {| permission := Some "can_edit"; view_menu := Some "wf-1" |}, "wf-1".
    split; [vm_compute; reflexivity|]. split; [reflexivity|discriminate].
Defined.

Lemma get_accessible_dag_ids_by_role_names_witness :
  ∃ ids, get_accessible_dag_ids sample_context sample_store None = inr ids ∧
         ∀ v, v ∈ ids ↔
              ∃ p, p ∈ DAG_PERMS ∧
                   (p, v) ∈ effective_grants sample_store (g_user sample_context).
Proof.
  destruct (get_accessible_dag_ids_by_role_names sample_context sample_store None)
    as [_ H].
  destruct H as [_ H3]; [reflexivity| |].
  - intros r Hr. apply list_elem_of_singleton in Hr as ->. discriminate.
  - apply H3; [|reflexivity|].
    + intros r Hr. apply list_elem_of_singleton in Hr as ->.
      apply (bool_decide_unpack _); vm_compute; exact I.
    + intros r _. apply no_faulty_grant_all_valid, sample_store_no_faulty_grant.
Defined.

Lemma has_perm_stale_only_when_true_witness :
  ∃ perms, get_all_permissions_views stale_context empty_store = inr perms ∧
           Some ∅ = Some perms ∧ ("can_dag_read", "all_dags") ∉ perms.
Proof.
  apply (proj1 has_perm_stale_only_when_true stale_context empty_store None
           "can_dag_read" "all_dags" (Some ∅)).
  reflexivity.
Defined.

(** C4 as stated fails: of the two rows User holds, the propagation hands
    the dag role the one without permission and not the one without view
    menu, which is neither the rows of User off [all_dags] nor the valid
    ones among them. *)
Lemma grant_user_perms_not_as_described :
  let s := user_with_half_rows in
  let user := {| id := 1; name := "User" |} in
  let r := {| id := 2; name := "wf-1-editors" |} in
  let added := ab_permission_view_role (store_of (grant_user_perms_to_dag_roles s))
               ∖ ab_permission_view_role s in
  find_role s "User" = Some user ∧
  r ∈ get_all_roles s ∧
  (name r ∉ EXISTING_ROLES) ∧
  added = {[ (2, 2) ]} ∧
  added ≠ described_rows (off_wildcard s user) s r ∧
  added ≠ described_rows (off_wildcard_valid s user) s r.
Proof. cbv zeta. apply (bool_decide_unpack _). vm_compute. exact I. Qed.

(** C7 as stated fails: a listed dag whose id is the empty string gets no
    permission-view, and neither does a listed dag for which a row pairs a
    permission named as the dag with a view menu named as the permission. *)
Lemma dag_perm_views_not_provisioned :
  {| dag_id := ""; is_active := true; is_paused := false; is_subdag := false |}
    ∈ all_dags_models odd_dags ∧
  sample_dag ∈ all_dags_models odd_dags ∧
  ¬ has_valid_grant (store_of (sync_roles odd_dags)) "can_dag_read" "" ∧
  ¬ has_valid_grant (store_of (sync_roles odd_dags)) "can_dag_read" "wf-1".
Proof.
  split; [apply (bool_decide_unpack _); vm_compute; exact I|].
  split; [apply (bool_decide_unpack _); vm_compute; exact I|].
  split; intros Hg%has_valid_grant_grant_rows; apply Hg;
    apply (bool_decide_unpack _); vm_compute; exact I.
Qed.

(** C8 as stated fails: the user has access to all dags through a grant on
    [all_dags], and yet the set returned is not the wildcard set. *)
Lemma accessible_dag_ids_not_wildcard :
  (has_all_dags_access sample_context wildcard_holder None).1 = inr true ∧
  get_accessible_dag_ids sample_context wildcard_holder None
  = inr {[ "all_dags"; "wf-1" ]} ∧
  get_accessible_dag_ids sample_context wildcard_holder None ≠ inr DAG_VMS.
Proof. apply (bool_decide_unpack _). vm_compute. exact I. Qed.

(** * Further properties of the passes and of the queries *)

(** ** What [sync_roles] never takes away, and when it raises *)

Lemma find_or_add_role_ab_role n s :
  ab_role s ⊆ ab_role (find_or_add_role n s).2.
Proof.
  pose proof (find_or_add_role_spec n s) as Hspec.
  destruct (find_or_add_role n s) as [r s1]; simpl in *.
  destruct Hspec as (_ & _ & _ & _ & _ & _ & [[_ ->] | (_ & _ & ->)]); [done|].
  apply insert_subseteq, next_id_fresh.
Qed.

Lemma init_role_ab_role n role_vms role_perms s :
  ab_role s ⊆ ab_role (init_role n role_vms role_perms s).
Proof.
  destruct (init_role_tables n role_vms role_perms s) as (_ & _ & _ & _ & ->).
  apply find_or_add_role_ab_role.
Qed.

Lemma set_permissions_assoc_mono r pvs s :
  permissions s r ⊆ pvs →
  ab_permission_view_role s ⊆ ab_permission_view_role (set_permissions r pvs s).
Proof.
  intros Hsub [i j] Hin. apply set_permissions_lookup.
  destruct (decide (j = id r ∧ is_Some (permissions s r !! i))) as [[-> [pv Hpv]]|Hn].
  - right. split; [done|]. exists pv. by eapply lookup_weaken.
  - by left.
Qed.

Lemma init_role_assoc_mono n role_vms role_perms s :
  ab_permission_view_role s
  ⊆ ab_permission_view_role (init_role n role_vms role_perms s).
Proof.
  rewrite init_role_unfold; cbv zeta.
  pose proof (find_or_add_role_spec n s) as Hspec.
  destruct (find_or_add_role n s) as [r s1]; simpl in *.
  destruct Hspec as (_ & _ & _ & _ & Ha & _). rewrite <- Ha.
  case_decide as Hsz; [|done].
  apply set_permissions_assoc_mono.
  apply map_size_empty_iff in Hsz. rewrite Hsz. apply map_empty_subseteq.
Qed.

Lemma init_roles_mono s :
  ab_role s ⊆ ab_role (init_roles s) ∧
  ab_permission_view_role s ⊆ ab_permission_view_role (init_roles s).
Proof.
  unfold init_roles. generalize ROLE_CONFIGS as l. intros l. revert s.
  induction l as [|c l IH]; intros s; simpl; [done|].
  destruct (IH (init_role (role c) (vms c) (perms c) s)) as [Hr Ha].
  split.
  - etrans; [apply init_role_ab_role|exact Hr].
  - etrans; [apply init_role_assoc_mono|exact Ha].
Qed.

Lemma before_grant_mono s :
  ab_role s ⊆ ab_role (before_grant s) ∧
  ab_permission_view_role s ⊆ ab_permission_view_role (before_grant s).
Proof.
  unfold before_grant.
  pose proof (create_perm_vm_for_all_dag_grows s)
    as (_ & _ & _ & _ & _ & Hr1 & Ha1 & _).
  pose proof (init_roles_mono (create_perm_vm_for_all_dag s)) as [Hr2 Ha2].
  pose proof (create_dag_perm_views_grows (init_roles (create_perm_vm_for_all_dag s)))
    as (_ & _ & _ & _ & _ & Hr3 & Ha3 & _).
  rewrite Hr3, Ha3. rewrite Hr1 in Hr2. rewrite Ha1 in Ha2.
  split; [exact Hr2|exact Ha2].
Qed.

Lemma repaired_assoc_mono s admin :
  ab_permission_view_role s ⊆ ab_permission_view_role (repaired s admin).
Proof. apply set_permissions_assoc_mono, map_union_subseteq_l. Qed.

Lemma granted_assoc_mono s u :
  ab_permission_view_role s ⊆ ab_permission_view_role (granted s u).
Proof. intros [i j] Hin. apply granted_assoc. by left. Qed.

(** [sync_roles] returns exactly when there is a role Admin; it raises
    [AttributeError] at the administrator repair otherwise, and then the
    cleanup has not run: every row of [ab_permission_view] is still there. *)
Theorem sync_roles_raises_without_Admin (s : Store) :
  (find_role s "Admin" = None ↔
   sync_roles s = Raised AttributeError (store_of (sync_roles s))) ∧
  (is_Some (find_role s "Admin") ↔ ∃ s', sync_roles s = Done s') ∧
  (find_role s "Admin" = None →
   ab_permission_view s ⊆ ab_permission_view (store_of (sync_roles s))).
Proof.
  destruct (sync_roles_cases s) as (u & _ & _ & Hcase).
  rewrite before_grant_find_role_Admin in Hcase.
  pose proof (before_grant_provisions s) as (_ & _ & Hsub & _).
  generalize dependent (before_grant s). intros bg Hcase Hsub.
  destruct (find_role s "Admin") as [admin|]; rewrite Hcase; clear Hcase.
  - split; [split; discriminate|]. split; [|discriminate].
    split; [eauto|]. intros _. by eexists.
  - split; [split; reflexivity|]. split; [|intros _; exact Hsub].
    split; [intros [? ?]; discriminate | intros [? ?]; discriminate].
Qed.

(** [sync_roles] takes nothing away but faulty permission-views: it keeps
    every permission, view-menu and role row, every join row, every
    permission-view with both references, and the dags; and afterwards the
    roles of [ROLE_CONFIGS] exist. *)
Theorem sync_roles_only_adds (s : Store) :
  let s' := store_of (sync_roles s) in
  ab_permission s ⊆ ab_permission s' ∧
  ab_view_menu s ⊆ ab_view_menu s' ∧
  ab_role s ⊆ ab_role s' ∧
  ab_permission_view_role s ⊆ ab_permission_view_role s' ∧
  (∀ i pv, ab_permission_view s !! i = Some pv → valid pv →
           ab_permission_view s' !! i = Some pv) ∧
  dag s' = dag s ∧
  (∀ c, c ∈ ROLE_CONFIGS → is_Some (find_role s' (role c))).
Proof.
  cbv zeta.
  destruct (sync_roles_tables s) as (Hp & Hv & _ & Hkeep & Hr & Hd).
  pose proof (before_grant_provisions s) as (Hp0 & Hv0 & Hsub & _ & _ & Hd0).
  pose proof (before_grant_mono s) as [Hr0 Ha0].
  pose proof (before_grant_find_role s) as Hroles.
  destruct (sync_roles_cases s) as (u & _ & _ & Hcase).
  rewrite Hp, Hv, Hr, Hd.
  split; [exact Hp0|]. split; [exact Hv0|]. split; [exact Hr0|].
  split; [|split; [|split; [exact Hd0|]]].
  - clear Hp Hv Hkeep Hr Hd Hp0 Hv0 Hsub Hd0 Hr0 Hroles.
    generalize dependent (before_grant s). intros bg Ha0 Hcase.
    destruct (find_role bg "Admin") as [admin|]; rewrite Hcase; clear Hcase;
      cbn [store_of].
    + etrans; [exact Ha0|]. etrans; [apply (granted_assoc_mono bg u)|].
      apply repaired_assoc_mono.
    + etrans; [exact Ha0|]. apply granted_assoc_mono.
  - intros i pv Hi Hvalid. apply Hkeep; [|exact Hvalid].
    by eapply lookup_weaken.
  - intros c Hc. rewrite (find_role_ext _ _ _ Hr). by apply Hroles.
Qed.

(** ** The passes one by one *)

Lemma _merge_perm_empty_name p v s : p = "" ∨ v = "" → _merge_perm p v s = s.
Proof.
  intros Hemp. unfold _merge_perm. rewrite decide_False; [done|].
  intros (_ & Hp & Hv). destruct Hemp; done.
Qed.

Lemma grows_size Q s s' :
  grows Q s s' → size (ab_permission_view s) ≤ size (ab_permission_view s').
Proof. intros (_ & _ & Hsub & _). by apply map_subseteq_size. Qed.

Lemma _merge_perm_size p v s :
  size (ab_permission_view (_merge_perm p v s)) ≤ S (size (ab_permission_view s)).
Proof.
  unfold _merge_perm. case_decide; [|lia].
  destruct (add_permission_view_menu_spec p v s)
    as (_ & _ & _ & _ & _ & [[_ ->] | [_ ->]]); [lia|].
  rewrite map_size_insert_None by apply next_id_fresh. lia.
Qed.

(** [_merge_perm] does nothing for an empty name.  For two names that are
    not empty it leaves a valid grant for the pair; it adds at most one
    permission-view, only for that pair and only when the pair had none;
    it touches neither the roles nor the join table; and doing it again
    changes nothing. *)
Theorem merge_perm_ensures_grant (p v : string) (s : Store) :
  (p = "" ∨ v = "" → _merge_perm p v s = s) ∧
  (p ≠ "" → v ≠ "" → has_valid_grant (_merge_perm p v s) p v) ∧
  grows (pv_is p v) s (_merge_perm p v s) ∧
  size (ab_permission_view (_merge_perm p v s)) ≤ S (size (ab_permission_view s)) ∧
  _merge_perm p v (_merge_perm p v s) = _merge_perm p v s.
Proof.
  split; [apply _merge_perm_empty_name|].
  split; [apply _merge_perm_has_valid_grant|].
  split; [apply grows__merge_perm|]. split; [apply _merge_perm_size|].
  destruct (decide (p = "")) as [->|Hp]; [by rewrite !_merge_perm_empty_name by by left|].
  destruct (decide (v = "")) as [->|Hv]; [by rewrite !_merge_perm_empty_name by by right|].
  by apply _merge_perm_present, _merge_perm_has_valid_grant.
Qed.

Lemma create_perm_vm_for_all_dag_fixed s :
  (∀ p, p ∈ DAG_PERMS → has_valid_grant s p "all_dags") →
  create_perm_vm_for_all_dag s = s.
Proof.
  intros H1. unfold create_perm_vm_for_all_dag.
  apply foldl_fixed. intros v Hv%elem_of_elements.
  apply foldl_fixed. intros p Hp%elem_of_elements.
  apply _merge_perm_present. unfold DAG_VMS in Hv.
  apply elem_of_singleton in Hv as ->. by apply H1.
Qed.

(** After [create_perm_vm_for_all_dag] both dag permissions have a valid
    grant on [all_dags]; the pass only adds permission-views of dag
    permissions on [all_dags], none for a pair that had one; it touches
    neither the roles nor the join table; and a second run changes
    nothing. *)
Theorem create_perm_vm_for_all_dag_ensures_grants (s : Store) :
  let s' := create_perm_vm_for_all_dag s in
  (∀ p, p ∈ DAG_PERMS → has_valid_grant s' p "all_dags") ∧
  grows (dag_perm_view DAG_VMS) s s' ∧
  create_perm_vm_for_all_dag s' = s'.
Proof.
  cbv zeta.
  split; [intros p; apply create_perm_vm_for_all_dag_has_valid_grant|].
  split; [apply create_perm_vm_for_all_dag_grows|].
  apply create_perm_vm_for_all_dag_fixed.
  intros p. apply create_perm_vm_for_all_dag_has_valid_grant.
Qed.

Lemma grows_sync_perm d s perm : grows (pv_is perm d) s (sync_perm d s perm).
Proof.
  unfold sync_perm. destruct (find_permission_view_menu s perm d);
    [apply grows_refl | apply grows_add_permission_view_menu].
Qed.

Lemma sync_perm_no_faulty_row d perm s :
  no_faulty_row s →
  no_faulty_row (sync_perm d s perm) ∧ has_valid_grant (sync_perm d s perm) perm d.
Proof.
  intros Hall. unfold sync_perm.
  destruct (find_permission_view_menu s perm d) as [[i pv]|] eqn:E.
  - split; [done|]. eapply find_permission_view_menu_valid; [done|].
    apply find_permission_view_menu_Some in E as (Hi & _). by eapply Hall.
  - split; [|apply add_permission_view_menu_has_valid_grant].
    intros i pv Hi.
    destruct (add_permission_view_menu_spec perm d s)
      as (_ & _ & _ & _ & _ & [[_ Hpvs] | [_ Hpvs]]); rewrite Hpvs in Hi.
    + by eapply Hall.
    + destruct (decide (i = next_id (ab_permission_view s))) as [->|Hne].
      * rewrite lookup_insert_eq in Hi. injection Hi as <-. split; by eexists.
      * rewrite lookup_insert_ne in Hi by done. by eapply Hall.
Qed.

Lemma foldl_sync_perm_no_faulty_row d l s p :
  no_faulty_row s → p ∈ l →
  has_valid_grant (foldl (sync_perm d) s l) p d.
Proof.
  revert s. induction l as [|q l IH]; intros s Hall Hin; simpl.
  - by apply elem_of_nil in Hin.
  - destruct (sync_perm_no_faulty_row d q s Hall) as [Hall' Hq].
    apply elem_of_cons in Hin as [->|Hin]; [|by apply IH].
    by apply foldl_sync_perm_grant_rows.
Qed.

(** [sync_perm_for_dag] only adds permission-views of dag permissions on
    the dag id, none for a pair that had one, and touches neither the roles
    nor the join table.  In a store where no row of [ab_permission_view]
    lacks a reference, both dag permissions have a valid grant on the dag
    id afterwards, whatever the id, the empty string included, and a second
    call for the same id changes nothing. *)
Theorem sync_perm_for_dag_ensures_grants (dag_id : string) (s : Store) :
  no_faulty_row s →
  let s' := sync_perm_for_dag dag_id s in
  (∀ p, p ∈ DAG_PERMS → has_valid_grant s' p dag_id) ∧
  grows (dag_perm_view {[ dag_id ]}) s s' ∧
  sync_perm_for_dag dag_id s' = s'.
Proof.
  intros Hrows. cbv zeta. unfold sync_perm_for_dag.
  assert (∀ p, p ∈ DAG_PERMS →
            has_valid_grant (foldl (sync_perm dag_id) s (elements DAG_PERMS)) p dag_id)
    as Hall.
  { intros p Hp. apply foldl_sync_perm_no_faulty_row; [done|].
    by apply elem_of_elements. }
  split; [exact Hall|]. split.
  - apply foldl_grows. intros s' p Hp%elem_of_elements.
    eapply grows_weaken; [|apply grows_sync_perm].
    intros pv. apply pv_is_dag_perm_view; [done|set_solver].
  - apply foldl_sync_perm_fixed. intros p Hp%elem_of_elements.
    by apply find_permission_view_menu_is_Some, Hall.
Qed.

(** The store has the view menu and a row on it without permission, and
    lacks the permission: what stops [sync_perm_for_dag] for it. *)
Lemma sync_perm_blocked d p i pv s q :
  p ∉ ab_permission s → d ∈ ab_view_menu s →
  ab_permission_view s !! i = Some pv → pv_refs None (Some d) pv →
  let s' := sync_perm d s q in
  (p ∉ ab_permission s') ∧ d ∈ ab_view_menu s' ∧
  ab_permission_view s' !! i = Some pv ∧
  (grant_rows s p d = ∅ → grant_rows s' p d = ∅).
Proof.
  intros Hp Hd Hi Hpv. cbv zeta. unfold sync_perm.
  destruct (find_permission_view_menu s q d) eqn:E; [done|].
  destruct (decide (q = p)) as [->|Hne].
  { assert (is_Some (find_permission_view_menu s p d)) as [x Hx]; [|congruence].
    unfold find_permission_view_menu. cbv zeta. unfold find_permission, find_view_menu.
    rewrite (decide_False _ _ Hp), (decide_True _ _ Hd).
    by eapply query_first_is_Some. }
  destruct (add_permission_view_menu_spec q d s)
    as (Hp' & Hv' & _ & _ & _ & Hpvs).
  rewrite Hp', Hv'. split; [set_solver|]. split; [set_solver|]. split.
  - destruct Hpvs as [[_ ->] | [_ ->]]; [done|].
    rewrite lookup_insert_ne; [done|]. apply next_id_gt in Hi. lia.
  - intros Hemp. rewrite add_permission_view_menu_grant_rows; [done|].
    intros [= ->]. done.
Qed.

(** A faulty row can stop [sync_perm_for_dag]: when the store lacks one of
    the dag permissions, has the view menu of the dag id, and has a row on
    that view menu without permission, the lookup for the pair returns that
    row, and the call creates neither the permission nor a permission-view
    for the pair. *)
Theorem sync_perm_for_dag_stopped_by_faulty_row (dag_id p : string) (s : Store)
    (i : nat) (pv : PermissionView) :
  p ∈ DAG_PERMS → p ∉ ab_permission s → dag_id ∈ ab_view_menu s →
  ab_permission_view s !! i = Some pv →
  permission pv = None → view_menu pv = Some dag_id →
  grant_rows s p dag_id = ∅ →
  let s' := sync_perm_for_dag dag_id s in
  is_Some (find_permission_view_menu s p dag_id) ∧
  (p ∉ ab_permission s') ∧
  grant_rows s' p dag_id = ∅ ∧
  ¬ has_valid_grant s' p dag_id.
Proof.
  intros _ Hp Hd Hi Hnone Hvm Hemp. cbv zeta.
  assert (pv_refs None (Some dag_id) pv) as Hpv by done.
  split.
  { unfold find_permission_view_menu. cbv zeta.
    unfold find_permission, find_view_menu.
    rewrite (decide_False _ _ Hp), (decide_True _ _ Hd).
    by eapply query_first_is_Some. }
  assert ((p ∉ ab_permission (sync_perm_for_dag dag_id s)) ∧
          grant_rows (sync_perm_for_dag dag_id s) p dag_id = ∅) as [H1 H2].
  { unfold sync_perm_for_dag. generalize (elements DAG_PERMS) as l.
    intros l. revert s Hp Hd Hi Hemp.
    induction l as [|q l IH]; intros s Hp Hd Hi Hemp; simpl; [done|].
    destruct (sync_perm_blocked dag_id p i pv s q Hp Hd Hi Hpv)
      as (Hp' & Hd' & Hi' & Hemp').
    apply IH; auto. }
  split; [exact H1|]. split; [exact H2|]. intros (Hin & _). exact (H1 Hin).
Qed.

(** A second [clean_perms] finds nothing to delete: the store stays as the
    first one left it and the log reports no deletion. *)
Theorem clean_perms_idempotent (s : Store) :
  clean_perms (clean_perms s).1 = ((clean_perms s).1, [CleaningFaultyPerms]).
Proof.
  assert (∀ i pv, ab_permission_view (clean_perms s).1 !! i = Some pv → valid pv)
    as Hvalid.
  { intros i pv Hi. by apply clean_perms_lookup in Hi as [_ ?]. }
  apply injective_projections.
  - by apply clean_perms_fixed.
  - generalize dependent (clean_perms s).1. intros s1 Hvalid.
    unfold clean_perms; simpl.
    assert (rows_where faulty (ab_permission_view s1) = ∅) as ->.
    { apply map_empty. intros i. apply map_lookup_filter_None_2. right.
      intros pv Hi Hf. apply faulty_not_valid in Hf. by apply Hf, (Hvalid i). }
    by rewrite map_size_empty.
Qed.

(** [init_role] is idempotent, whatever the role and the baseline. *)
Theorem init_role_idempotent (role_name : string) (role_vms role_perms : gset string)
    (s : Store) :
  init_role role_name role_vms role_perms
    (init_role role_name role_vms role_perms s)
  = init_role role_name role_vms role_perms s.
Proof.
  destruct (init_role_spec s role_name role_vms role_perms)
    as (Hfind & _ & _ & _ & _ & Hpv & _).
  pose proof (init_role_seed
                {| role := role_name; perms := role_perms; vms := role_vms |} s)
    as Hseed.
  cbv zeta in Hseed. unfold role_pvms in Hseed. cbn [role perms vms] in Hseed.
  pose proof (init_role_frame role_name role_vms role_perms s
                (find_or_add_role role_name s).1) as Hframe.
  remember ((find_or_add_role role_name s).1) as r eqn:Er. clear Er.
  remember (init_role role_name role_vms role_perms s) as s1 eqn:Es1. clear Es1.
  rewrite init_role_unfold. unfold find_or_add_role. rewrite Hfind.
  cbn [fst snd]. case_decide as Hsz; [|reflexivity].
  apply map_size_empty_iff in Hsz. rewrite Hpv.
  destruct (decide (permissions s r = ∅)) as [Hemp | Hne].
  - rewrite <- (Hseed Hemp). apply set_permissions_same.
  - rewrite (Hframe Hne) in Hsz. done.
Qed.

Lemma repaired_idempotent s admin :
  repaired (repaired s admin) admin = repaired s admin.
Proof.
  unfold repaired at 1.
  assert (permissions (repaired s admin) admin
          = permissions s admin ∪ rows_where valid (ab_permission_view s)) as Hp.
  { unfold repaired. apply permissions_set_permissions, admin_pvms_subseteq. }
  change (ab_permission_view (repaired s admin)) with (ab_permission_view s).
  rewrite map_union_subseteq_id; [apply set_permissions_same|].
  rewrite Hp. apply map_subseteq_spec. intros i pv Hi.
  apply lookup_union_Some_raw.
  destruct (permissions s admin !! i) as [pv'|] eqn:E; [|by right].
  left. apply permissions_lookup in E as [E _].
  apply rows_where_lookup in Hi as [Hi _]. congruence.
Qed.

(** When there is a role Admin, a second [update_admin_perm_view] changes
    nothing, and after the first Admin holds every permission-view with
    both references.  When there is none, the function raises and the
    store is as it was. *)
Theorem update_admin_perm_view_idempotent (s : Store) :
  (∀ admin, find_role s "Admin" = Some admin →
     ∃ s', update_admin_perm_view s = Done s' ∧
           update_admin_perm_view s' = Done s' ∧
           rows_where valid (ab_permission_view s') ⊆ permissions s' admin) ∧
  (find_role s "Admin" = None →
     update_admin_perm_view s = Raised AttributeError s).
Proof.
  split; [|apply update_admin_perm_view_Raised].
  intros admin Hadmin. exists (repaired s admin).
  split; [by apply update_admin_perm_view_Done|]. split.
  - rewrite (update_admin_perm_view_Done (repaired s admin) admin) by exact Hadmin.
    f_equal. apply repaired_idempotent.
  - unfold repaired at 2.
    rewrite permissions_set_permissions by apply admin_pvms_subseteq.
    change (ab_permission_view (repaired s admin)) with (ab_permission_view s).
    apply map_subseteq_spec. intros i pv Hi. apply lookup_union_Some_raw.
    destruct (permissions s admin !! i) as [pv'|] eqn:E; [|by right].
    left. apply permissions_lookup in E as [E _].
    apply rows_where_lookup in Hi as [Hi _]. congruence.
Qed.

(** After the propagation no dag role misses anything: a second one has an
    empty list to insert, and writes a row of NULLs. *)
Lemma granted_again s u : granted (granted s u) u = null_row (granted s u).
Proof.
  unfold granted at 1.
  assert (update_perm_views (granted s u) u "all_dags" = ∅) as ->;
    [|apply execute_insert_empty].
  apply set_eq. intros [i j]. rewrite elem_of_update_perm_views.
  split; [|set_solver]. intros (r & Hr & -> & Hi & Hn). destruct Hn.
  change (dag_role (granted s u)) with (dag_role s) in Hr.
  apply elem_of_all_perm_views in Hi as (pv & Hpv & Hother).
  apply permissions_lookup in Hpv as [Hpv Ha].
  change (ab_permission_view (granted s u)) with (ab_permission_view s) in Hpv.
  destruct (decide ((i, id r) ∈ ab_permission_view_role s)) as [Hin | Hnin].
  { apply granted_assoc. by left. }
  apply granted_assoc in Ha as [Ha | (r' & Hr' & Hid & Hsel & _)].
  - apply granted_covers; [done|]. apply elem_of_all_perm_views.
    exists pv. split; [by apply permissions_lookup | done].
  - by apply granted_covers.
Qed.

(** [create_custom_dag_permission_view] raises [AttributeError] when there
    is no role User, after it has made the dag permission-views, which
    stay.  When the roles User and the view menu [all_dags] are there
    after that first half, the function returns; the second half then only
    adds rows to the join table: the join rows the dag roles miss, or, when
    they miss none, one row of NULLs.  So running the second half again
    just after adds a row of NULLs, and nothing else. *)
Theorem create_custom_dag_permission_view_outcomes (s : Store) :
  (find_role s "User" = None →
     create_custom_dag_permission_view s
     = Raised AttributeError (create_dag_perm_views s)) ∧
  (∀ u, find_role s "User" = Some u →
        "all_dags" ∈ ab_view_menu (create_dag_perm_views s) →
        ∃ s', create_custom_dag_permission_view s = Done s' ∧
              ab_permission_view s' = ab_permission_view (create_dag_perm_views s) ∧
              ab_permission_view_role s ⊆ ab_permission_view_role s' ∧
              ab_permission_view_role_null s'
              = (if decide (ab_permission_view_role s' = ab_permission_view_role s)
                 then S (ab_permission_view_role_null s)
                 else ab_permission_view_role_null s) ∧
              grant_user_perms_to_dag_roles s' = Done (null_row s')) ∧
  grows (dag_perm_view (dag_view_menus s)) s (create_dag_perm_views s).
Proof.
  pose proof (create_dag_perm_views_grows s) as Hg.
  split; [|split; [|exact Hg]].
  - intros Hnone. unfold create_custom_dag_permission_view,
      grant_user_perms_to_dag_roles.
    by rewrite (grows_find_role _ _ _ _ Hg), Hnone.
  - intros u Hu Hvm. rewrite <- (grows_find_role _ _ _ _ Hg) in Hu.
    unfold create_custom_dag_permission_view.
    assert (ab_permission_view_role (create_dag_perm_views s)
            = ab_permission_view_role s) as Ha by apply Hg.
    assert (ab_permission_view_role_null (create_dag_perm_views s)
            = ab_permission_view_role_null s) as Hn by apply Hg.
    clear Hg. generalize dependent (create_dag_perm_views s).
    intros s1 Hu Hvm Ha Hn.
    exists (granted s1 u). split; [by apply grant_user_perms_Done|].
    split; [reflexivity|]. split; [|split].
    + rewrite <- Ha. apply granted_assoc_mono.
    + rewrite <- Ha, <- Hn. apply granted_null.
    + rewrite (grant_user_perms_Done (granted s1 u) u) by done.
      f_equal. apply granted_again.
Qed.

(** ** The queries: what they return and when they raise *)

Lemma role_perms_views_inr_inv s r X :
  role_perms_views s r = inr X → all_valid s r.
Proof.
  intros HX. destruct (decide (∀ i pv, permissions s r !! i = Some pv → valid pv))
    as [Hall | Hn]; [exact Hall|].
  rewrite (role_perms_views_inl s r Hn) in HX. discriminate.
Qed.

Lemma foldl_update_perms_views_inl s e l :
  foldl (update_perms_views s) (inl e) l = inl e.
Proof. induction l as [|r l IH]; simpl; [done|exact IH]. Qed.

Lemma foldl_role_perms_views_raise s (rs : list Role) acc :
  (∃ r, r ∈ rs ∧ ¬ all_valid s r) →
  foldl (update_perms_views s) (inr acc) rs = inl AttributeError.
Proof.
  revert acc. induction rs as [|r0 rs IH]; intros acc (r & Hr & Hn).
  - by apply elem_of_nil in Hr.
  - cbn [foldl]. unfold update_perms_views at 2. cbn [try].
    destruct (role_perms_views s r0) as [[]|X] eqn:E; cbn [try].
    + apply foldl_update_perms_views_inl.
    + apply IH. exists r. split; [|exact Hn].
      apply elem_of_cons in Hr as [->|Hr]; [|exact Hr].
      destruct Hn. by eapply role_perms_views_inr_inv.
Qed.

Lemma full_access_decide (rs : list Role) :
  (∀ r, r ∈ rs → name r ∉ ({[ "Admin"; "Viewer"; "User"; "Op" ]} : gset string)) →
  {[ "Admin"; "Viewer"; "User"; "Op" ]} ∩ list_to_set (name <$> rs) =@{gset string} ∅.
Proof.
  intros Hnone. apply dec_stable. intros (r & Hr & Hn)%full_access_role_names.
  by apply (Hnone r).
Qed.

(** For a user who is not anonymous, [get_all_permissions_views] returns
    the pairs of the grants of the user's roles when none of these grants
    lacks a reference, and raises [AttributeError] when one does; then
    [get_accessible_dag_ids] raises too, unless one of the roles is named
    Admin, Viewer, User or Op. *)
Theorem get_all_permissions_views_raises_on_faulty_grant (c : Context) (s : Store) :
  is_anonymous (g_user c) = false →
  ((∀ r, r ∈ roles (g_user c) → all_valid s r) →
   get_all_permissions_views c s = inr (effective_grants s (g_user c))) ∧
  ((∃ r, r ∈ roles (g_user c) ∧ ¬ all_valid s r) →
   get_all_permissions_views c s = inl AttributeError ∧
   ((∀ r, r ∈ roles (g_user c) →
          name r ∉ ({[ "Admin"; "Viewer"; "User"; "Op" ]} : gset string)) →
    get_accessible_dag_ids c s None = inl AttributeError)).
Proof.
  intros Hanon. split; [by apply get_all_permissions_views_user|].
  intros Hbad.
  assert (get_all_permissions_views c s = inl AttributeError) as Hraise.
  { unfold get_all_permissions_views, get_user_roles; simpl. rewrite Hanon.
    by apply foldl_role_perms_views_raise. }
  split; [exact Hraise|]. intros Hnone.
  unfold get_accessible_dag_ids; simpl.
  rewrite Hanon, str_not_in_roles; simpl.
  rewrite decide_False by (intros Hne; apply Hne; by apply full_access_decide).
  by rewrite Hraise.
Qed.

Lemma _has_role_user c s l :
  is_anonymous (g_user c) = false →
  _has_role c s l
  = inr (existsb (λ b, b) ((λ r, bool_decide (name r ∈ l)) <$> roles (g_user c))).
Proof.
  intros Hanon. unfold _has_role, get_user_roles; simpl. by rewrite Hanon.
Qed.

Lemma existsb_has_role (l : list string) (rs : list Role) :
  existsb (λ b, b) ((λ r, bool_decide (name r ∈ l)) <$> rs) = true ↔
  ∃ r, r ∈ rs ∧ name r ∈ l.
Proof.
  rewrite existsb_exists. split.
  - intros (b & Hin & ->). apply list_elem_of_In, list_elem_of_fmap in Hin
      as (r & Hb & Hr). symmetry in Hb. apply bool_decide_eq_true in Hb. eauto.
  - intros (r & Hr & Hn). exists true. split; [|done].
    apply list_elem_of_In, list_elem_of_fmap. exists r. split; [|done].
    symmetry. by apply bool_decide_eq_true.
Qed.

(** For a user who is not anonymous, [_has_role] never raises, and it
    returns [True] exactly when one of the user's roles has one of the
    names asked for. *)
Theorem has_role_by_name (c : Context) (s : Store) (role_name_or_list : list string) :
  is_anonymous (g_user c) = false →
  ∃ b, _has_role c s role_name_or_list = inr b ∧
       (b = true ↔ ∃ r, r ∈ roles (g_user c) ∧ name r ∈ role_name_or_list).
Proof.
  intros Hanon. eexists. split; [by apply _has_role_user|].
  apply existsb_has_role.
Qed.

Lemma _has_perm_fresh c s (self_perms : cache) perms p v :
  get_all_permissions_views c s = inr perms →
  self_perms = None ∨ self_perms = Some perms →
  _has_perm c s self_perms p v = (inr (bool_decide ((p, v) ∈ perms)), Some perms).
Proof.
  intros Hget Hcache. unfold _has_perm, _get_and_cache_perms. rewrite Hget.
  destruct Hcache as [-> | ->]; simpl; [done|].
  destruct (bool_decide ((p, v) ∈ perms)) eqn:E; done.
Qed.

Lemma _has_perm_user c s (self_perms : cache) p v :
  is_anonymous (g_user c) = false →
  (∀ r, r ∈ roles (g_user c) → all_valid s r) →
  self_perms = None ∨ self_perms = Some (effective_grants s (g_user c)) →
  _has_perm c s self_perms p v
  = (inr (bool_decide ((p, v) ∈ effective_grants s (g_user c))),
     Some (effective_grants s (g_user c))).
Proof.
  intros Hanon Hvalid Hcache. apply _has_perm_fresh; [|exact Hcache].
  by apply get_all_permissions_views_user.
Qed.

(** With no cache yet, or with the cache [_get_and_cache_perms] would
    build, [_has_perm] answers by the grants of the current user's roles
    and leaves that set in the cache. *)
Theorem has_perm_without_stale_cache (c : Context) (s : Store) (self_perms : cache)
    (p v : string) :
  is_anonymous (g_user c) = false →
  (∀ r, r ∈ roles (g_user c) → all_valid s r) →
  self_perms = None ∨ self_perms = Some (effective_grants s (g_user c)) →
  _has_perm c s self_perms p v
  = (inr (bool_decide ((p, v) ∈ effective_grants s (g_user c))),
     Some (effective_grants s (g_user c))).
Proof.
  intros Hanon Hvalid Hcache. by apply _has_perm_user.
Qed.

(** The three cases of [has_all_dags_access].  For a user who is not
    anonymous: with a role named Admin, Viewer, Op or User the answer is
    [True] and the cache is not touched; and with no cache yet and no
    grant lacking a reference, the answer is [True] exactly in the three
    cases of the docstring. *)
Theorem has_all_dags_access_cases (c : Context) (s : Store) :
  is_anonymous (g_user c) = false →
  (∀ self_perms,
     (∃ r, r ∈ roles (g_user c) ∧ name r ∈ ["Admin"; "Viewer"; "Op"; "User"]) →
     has_all_dags_access c s self_perms = (inr true, self_perms)) ∧
  ((∀ r, r ∈ roles (g_user c) → all_valid s r) →
   ∃ b, (has_all_dags_access c s None).1 = inr b ∧
        (b = true ↔
         (∃ r, r ∈ roles (g_user c) ∧ name r ∈ ["Admin"; "Viewer"; "Op"; "User"]) ∨
         ("can_dag_read", "all_dags") ∈ effective_grants s (g_user c) ∨
         ("can_dag_edit", "all_dags") ∈ effective_grants s (g_user c))).
Proof.
  intros Hanon. split.
  - intros self_perms Hrole. unfold has_all_dags_access.
    rewrite (_has_role_user c s _ Hanon).
    apply existsb_has_role in Hrole. by rewrite Hrole.
  - intros Hvalid. unfold has_all_dags_access.
    rewrite (_has_role_user c s _ Hanon).
    destruct (existsb _ _) eqn:Hrole.
    { exists true. split; [done|]. split; [|done]. intros _. left.
      by apply existsb_has_role. }
    assert (¬ ∃ r, r ∈ roles (g_user c) ∧ name r ∈ ["Admin"; "Viewer"; "Op"; "User"])
      as Hno.
    { intros H%existsb_has_role. congruence. }
    rewrite (_has_perm_user c s None _ _ Hanon Hvalid) by by left.
    destruct (bool_decide (("can_dag_read", "all_dags")
                             ∈ effective_grants s (g_user c))) eqn:Hread.
    { exists true. split; [done|]. split; [|done]. intros _. right. left.
      by apply bool_decide_eq_true in Hread. }
    rewrite (_has_perm_user c s _ _ _ Hanon Hvalid) by by right.
    apply bool_decide_eq_false in Hread. eexists. split; [reflexivity|].
    rewrite bool_decide_eq_true. tauto.
Qed.


(** ** Seeding the three tiers *)

Lemma init_role_permissions_other_name n role_vms role_perms s r :
  ab_role s !! id r = Some (name r) → name r ≠ n →
  permissions (init_role n role_vms role_perms s) r = permissions s r.
Proof.
  intros Hr Hne.
  destruct (init_role_spec s n role_vms role_perms)
    as (Hfind & _ & _ & _ & _ & _ & _ & _ & Hother).
  destruct (init_role_tables n role_vms role_perms s) as (_ & _ & _ & _ & Hroles).
  apply Hother.
  apply find_role_Some in Hfind as [Hfound Hname].
  rewrite Hroles in Hfound.
  pose proof (lookup_weaken _ _ _ _ Hr (find_or_add_role_ab_role n s)) as Hr'.
  eapply (role_ids_differ (find_or_add_role n s).2); [exact Hr'| |].
  - rewrite Hname. exact Hfound.
  - by rewrite Hname.
Qed.

Lemma init_role_permissions_seeded c s r :
  find_role s (role c) = Some r → permissions s r = ∅ →
  permissions (init_role (role c) (vms c) (perms c) s) r = role_pvms c s.
Proof.
  intros Hfind Hemp. pose proof (init_role_seed c s) as Hseed.
  cbv zeta in Hseed. unfold find_or_add_role in Hseed. rewrite Hfind in Hseed.
  by apply Hseed.
Qed.

Lemma role_pvms_mono c1 c2 s :
  perms c1 ⊆ perms c2 → vms c1 ⊆ vms c2 → role_pvms c1 s ⊆ role_pvms c2 s.
Proof.
  intros Hp Hv. apply map_subseteq_spec. intros i pv.
  rewrite !role_pvms_lookup', !in_role_config_spec.
  intros [Hi (p & v & ? & ? & ? & ?)]. split; [done|].
  exists p, v. repeat split; try done; [by apply Hp|by apply Hv].
Qed.

Lemma ROLE_CONFIGS_eq : ROLE_CONFIGS = [Viewer_config; User_config; Op_config].
Proof. reflexivity. Qed.

Lemma find_role_in_table s n r :
  find_role s n = Some r → ab_role s !! id r = Some (name r).
Proof. intros [Hi Hn]%find_role_Some. by rewrite Hn. Qed.

Lemma find_role_name s n r : find_role s n = Some r → name r = n.
Proof. by intros [_ Hn]%find_role_Some. Qed.

(** When the roles Viewer, User and Op exist and hold nothing, the seeding
    loop gives each the valid permission-views of its own configuration,
    so that Viewer's grants are among User's, and User's among Op's. *)
Theorem init_roles_seeds_tiers (s : Store) (viewer user op : Role) :
  find_role s "Viewer" = Some viewer →
  find_role s "User" = Some user →
  find_role s "Op" = Some op →
  permissions s viewer = ∅ → permissions s user = ∅ → permissions s op = ∅ →
  permissions (init_roles s) viewer = role_pvms Viewer_config s ∧
  permissions (init_roles s) user = role_pvms User_config s ∧
  permissions (init_roles s) op = role_pvms Op_config s ∧
  permissions (init_roles s) viewer ⊆ permissions (init_roles s) user ∧
  permissions (init_roles s) user ⊆ permissions (init_roles s) op.
Proof.
  intros Hv Hu Ho Hev Heu Heo.
  pose proof (find_role_name _ _ _ Hv) as Hnv.
  pose proof (find_role_name _ _ _ Hu) as Hnu.
  pose proof (find_role_name _ _ _ Ho) as Hno.
  unfold init_roles. rewrite ROLE_CONFIGS_eq. cbn [foldl].
  set (s1 := init_role (role Viewer_config) (vms Viewer_config)
               (perms Viewer_config) s).
  set (s2 := init_role (role User_config) (vms User_config)
               (perms User_config) s1).
  assert (find_role s1 "User" = Some user) as Hu1.
  { unfold s1. rewrite init_role_find_role_other; [done|by eexists]. }
  assert (find_role s1 "Op" = Some op) as Ho1.
  { unfold s1. rewrite init_role_find_role_other; [done|by eexists]. }
  assert (find_role s1 "Viewer" = Some viewer) as Hv1.
  { unfold s1. rewrite init_role_find_role_other; [done|by eexists]. }
  assert (find_role s2 "Op" = Some op) as Ho2.
  { unfold s2. rewrite init_role_find_role_other; [done|by eexists]. }
  assert (find_role s2 "Viewer" = Some viewer) as Hv2.
  { unfold s2. rewrite init_role_find_role_other; [done|by eexists]. }
  assert (find_role s2 "User" = Some user) as Hu2.
  { unfold s2. rewrite init_role_find_role_other; [done|by eexists]. }
  assert (ab_permission_view s1 = ab_permission_view s) as Hpv1
    by apply init_role_tables.
  assert (ab_permission_view s2 = ab_permission_view s) as Hpv2.
  { unfold s2. etrans; [apply init_role_tables|done]. }
  assert (permissions (init_role (role Op_config) (vms Op_config)
                         (perms Op_config) s2) viewer
          = role_pvms Viewer_config s) as HV.
  { rewrite init_role_permissions_other_name;
      [|by eapply find_role_in_table|by rewrite Hnv].
    unfold s2. rewrite init_role_permissions_other_name;
      [|by eapply find_role_in_table|by rewrite Hnv].
    by apply init_role_permissions_seeded. }
  assert (permissions (init_role (role Op_config) (vms Op_config)
                         (perms Op_config) s2) user
          = role_pvms User_config s) as HU.
  { rewrite init_role_permissions_other_name;
      [|by eapply find_role_in_table|by rewrite Hnu].
    unfold s2. rewrite init_role_permissions_seeded; [by apply role_pvms_ext|done|].
    unfold s1. rewrite init_role_permissions_other_name;
      [done|by eapply find_role_in_table|by rewrite Hnu]. }
  assert (permissions (init_role (role Op_config) (vms Op_config)
                         (perms Op_config) s2) op
          = role_pvms Op_config s) as HO.
  { rewrite init_role_permissions_seeded; [by apply role_pvms_ext|done|].
    unfold s2. rewrite init_role_permissions_other_name;
      [|by eapply find_role_in_table|by rewrite Hno].
    unfold s1. rewrite init_role_permissions_other_name;
      [done|by eapply find_role_in_table|by rewrite Hno]. }
  rewrite HV, HU, HO. do 3 (split; [reflexivity|]).
  split; apply role_pvms_mono;
    unfold Viewer_config, User_config, Op_config; cbn [perms vms];
    generalize VIEWER_PERMS USER_PERMS OP_PERMS DAG_PERMS
               VIEWER_VMS USER_VMS OP_VMS DAG_VMS;
    intros; set_solver.
Qed.

(** ** From the second run on *)


(** ** The further properties at concrete stores *)

Lemma get_all_permissions_views_raises_on_faulty_grant_witness :
  is_anonymous (g_user half_rows_context) = false ∧
  get_all_permissions_views half_rows_context user_with_half_rows
  = inl AttributeError.
Proof.
  split; [reflexivity|].
  apply (get_all_permissions_views_raises_on_faulty_grant
           half_rows_context user_with_half_rows eq_refl).
  exists {| id := 1; name := "User" |}. split; [apply list_elem_of_singleton; reflexivity|].
  intros Hall.
  destruct (Hall 1 {| permission := Some "can_edit"; view_menu := None |})
    as [_ [v Hv]]; [vm_compute; reflexivity|discriminate Hv].
Defined.

Lemma sample_context_all_valid r :
  r ∈ roles (g_user sample_context) → all_valid sample_store r.
Proof. intros _. apply no_faulty_grant_all_valid, sample_store_no_faulty_grant. Qed.

Lemma has_role_by_name_witness :
  is_anonymous (g_user sample_context) = false ∧
  ∃ b, _has_role sample_context sample_store ["Admin"] = inr b ∧
       (b = true ↔ ∃ r, r ∈ roles (g_user sample_context) ∧ name r ∈ ["Admin"]).
Proof.
  split; [reflexivity|].
  exact (has_role_by_name sample_context sample_store ["Admin"] eq_refl).
Defined.

Lemma has_perm_without_stale_cache_witness :
  is_anonymous (g_user sample_context) = false ∧
  _has_perm sample_context sample_store None "can_dag_read" "wf-1"
  = (inr (bool_decide (("can_dag_read", "wf-1")
                         ∈ effective_grants sample_store (g_user sample_context))),
     Some (effective_grants sample_store (g_user sample_context))).
Proof.
  split; [reflexivity|].
  exact (has_perm_without_stale_cache sample_context sample_store None
           "can_dag_read" "wf-1" eq_refl sample_context_all_valid
           (or_introl eq_refl)).
Defined.

Lemma has_all_dags_access_cases_witness :
  is_anonymous (g_user sample_context) = false ∧
  ∃ b, (has_all_dags_access sample_context sample_store None).1 = inr b ∧
       (b = true ↔
        (∃ r, r ∈ roles (g_user sample_context) ∧
              name r ∈ ["Admin"; "Viewer"; "Op"; "User"]) ∨
        ("can_dag_read", "all_dags")
          ∈ effective_grants sample_store (g_user sample_context) ∨
        ("can_dag_edit", "all_dags")
          ∈ effective_grants sample_store (g_user sample_context)).
Proof.
  split; [reflexivity|].
  exact (proj2 (has_all_dags_access_cases sample_context sample_store eq_refl)
           sample_context_all_valid).
Defined.


Lemma unseeded_store_no_faulty_row : no_faulty_row unseeded_store.
Proof.
  intros i pv Hi. unfold unseeded_store in Hi; simpl in Hi.
  repeat (apply lookup_insert_Some in Hi as [[_ <-] | [_ Hi]];
          [split; by eexists|]).
  apply lookup_singleton_Some in Hi as [_ <-]. split; by eexists.
Qed.

Lemma sync_perm_for_dag_ensures_grants_witness :
  no_faulty_row unseeded_store ∧
  (∀ p, p ∈ DAG_PERMS →
        has_valid_grant (sync_perm_for_dag "wf-1" unseeded_store) p "wf-1") ∧
  size (ab_permission_view (sync_perm_for_dag "wf-1" unseeded_store)) = 5.
Proof.
  split; [exact unseeded_store_no_faulty_row|]. split.
  - exact (proj1 (sync_perm_for_dag_ensures_grants "wf-1" unseeded_store
                    unseeded_store_no_faulty_row)).
  - vm_compute. reflexivity.
Defined.

(** In [sample_store] the permission [can_dag_edit] is missing and row 2
    is a row on [wf-1] without permission. *)
Lemma sync_perm_for_dag_stopped_by_faulty_row_witness :
  ("can_dag_edit" ∉ ab_permission sample_store) ∧
  ab_permission_view sample_store !! 2
  = Some {| permission := None; view_menu := Some "wf-1" |} ∧
  ¬ has_valid_grant (sync_perm_for_dag "wf-1" sample_store) "can_dag_edit" "wf-1".
Proof.
  assert ("can_dag_edit" ∉ ab_permission sample_store) as Hp
    by (apply (bool_decide_unpack _); vm_compute; exact I).
  assert ("wf-1" ∈ ab_view_menu sample_store) as Hd
    by (apply (bool_decide_unpack _); vm_compute; exact I).
  assert ("can_dag_edit" ∈ DAG_PERMS) as Hin
    by (apply (bool_decide_unpack _); vm_compute; exact I).
  assert (ab_permission_view sample_store !! 2
          = Some {| permission := None; view_menu := Some "wf-1" |}) as Hi
    by (vm_compute; reflexivity).
  assert (grant_rows sample_store "can_dag_edit" "wf-1" = ∅) as Hemp
    by (apply (bool_decide_unpack _); vm_compute; exact I).
  split; [exact Hp|]. split; [exact Hi|].
  exact (proj2 (proj2 (proj2
    (sync_perm_for_dag_stopped_by_faulty_row "wf-1" "can_dag_edit" sample_store
       2 _ Hin Hp Hd Hi eq_refl eq_refl Hemp)))).
Defined.

Lemma init_roles_seeds_tiers_witness :
  find_role unseeded_store "Viewer" = Some {| id := 2; name := "Viewer" |} ∧
  permissions unseeded_store {| id := 2; name := "Viewer" |} = ∅ ∧
  permissions (init_roles unseeded_store) {| id := 2; name := "Viewer" |}
  ⊆ permissions (init_roles unseeded_store) {| id := 3; name := "User" |}.
Proof.
  assert (find_role unseeded_store "Viewer" = Some {| id := 2; name := "Viewer" |})
    as Hv by (vm_compute; reflexivity).
  assert (find_role unseeded_store "User" = Some {| id := 3; name := "User" |})
    as Hu by (vm_compute; reflexivity).
  assert (find_role unseeded_store "Op" = Some {| id := 4; name := "Op" |})
    as Ho by (vm_compute; reflexivity).
  assert (∀ r, permissions unseeded_store r = ∅) as Hemp.
  { intros r. apply map_empty. intros i. apply map_lookup_filter_None_2.
    right. intros pv _ Hin. simpl in Hin. by apply not_elem_of_empty in Hin. }
  split; [exact Hv|]. split; [apply Hemp|].
  exact (proj1 (proj2 (proj2 (proj2
    (init_roles_seeds_tiers unseeded_store _ _ _ Hv Hu Ho
       (Hemp _) (Hemp _) (Hemp _)))))).
Defined.
